(** * Offline-first synchronisation engine of the mobile client

    A shallow embedding of
      - [mobile-app/src/services/storageService.js]  (class StorageService)
      - [mobile-app/src/services/syncService.js]     (class SyncService and
        class ComplaintService)
      - [mobile-app/src/screens/HomeScreen.js]       (the timer that starts
        the automatic synchronisation)
    and the properties of the upload orchestrator, the retention cleanup and
    the read-through cache.

    Modelling conventions.
      - The JavaScript is single-threaded and every method runs in an
        [async] function.  A method is a computation [M A]: it takes the
        world, returns a value or a thrown [Error], and the new world.
      - Everything the code cannot control comes from an environment [Env]
        of oracles indexed by a logical time [tick]: the clock, the network
        state, the faults of AsyncStorage and the outcomes of HTTP calls.
        Every call to the outside consumes one tick.
      - AsyncStorage holds JSON text under three keys; the embedding keeps the
        decoded value under each key ([None]: the key was never written).  A
        failed [getItem], and a [JSON.parse] that throws, are both a read
        fault of the oracle.
      - Instants ([Date.now()], [new Date()], ISO strings) are integers, in
        milliseconds.  [setDate(getDate() - 7)] is taken in a time zone with
        a fixed offset, where it subtracts exactly seven times 86400000 ms.
      - [console.log] and [console.error] are not observable and are left
        out; calls to the outside and to the progress callback are recorded
        in [trace], oldest first. *)

From Stdlib Require Import ZArith List String Bool Arith Lia.
From Stdlib Require Import DecimalString.
Import ListNotations.

Local Open Scope string_scope.

(* ------------------------------------------------------------------ *)
(** * Values *)

(** A JavaScript [Error]: its [message], and [response?.data?.detail] when
    the HTTP client attached a response that has one. *)
Record Error : Type := mkError {
  err_message : string;
  err_detail  : option string
}.

(** The outcome of running a piece of code: a value, or a thrown error. *)
Inductive Res (A : Type) : Type :=
| Ok (a : A)
| Throw (e : Error).
Arguments Ok {A} a.
Arguments Throw {A} e.

(** An entry of the [offline_photos] collection. *)
Record Photo : Type := mkPhoto {
  id          : string;
  complaintId : string;
  uri         : string;
  fileName    : option string;
  latitude    : option Z;
  longitude   : option Z;
  timestamp   : option Z;
  synced      : bool;
  syncedAt    : option Z
}.

(** What the capture screen hands to [saveOfflinePhoto]. *)
Record PhotoData : Type := mkPhotoData {
  pd_uri       : string;
  pd_fileName  : option string;
  pd_latitude  : option Z;
  pd_longitude : option Z
}.

(** An entry of the [synced_complaints] collection. *)
Record Complaint : Type := mkComplaint {
  complaint_id     : string;
  body             : string;
  geotagged_photos : option (list string)
}.

(** [response.data] of the listing endpoint: [results] may be missing. *)
Record Listing : Type := mkListing {
  results : option (list Complaint)
}.

(** The multipart body built by [uploadPhoto]. *)
Record FormData : Type := mkFormData {
  fd_complaint_id : string;
  fd_photo_uri    : string;
  fd_photo_name   : string;
  fd_location     : option (Z * Z);
  fd_timestamp    : option Z
}.

Inductive NetworkStateType : Type :=
| NT_NONE | NT_UNKNOWN | NT_CELLULAR | NT_WIFI | NT_BLUETOOTH
| NT_ETHERNET | NT_WIMAX | NT_VPN | NT_OTHER.

Record NetworkState : Type := mkNetworkState {
  isConnected         : bool;
  netType             : NetworkStateType;
  isInternetReachable : bool
}.

Definition isWIFI (t : NetworkStateType) : bool :=
  match t with NT_WIFI => true | _ => false end.

(** The argument of the progress callback. *)
Record ProgressEvent : Type := mkProgress {
  current : nat;
  total   : nat;
  photo   : Photo
}.

(** The progress callback is code of the caller: it returns or throws. *)
Definition Callback : Type := ProgressEvent -> Res unit.

(** The object returned by [syncPhotos]; a field that the returned literal
    does not have is [None]. *)
Record SyncResult : Type := mkSyncResult {
  success      : bool;
  message      : string;
  count        : option nat;
  successCount : option nat;
  failCount    : option nat
}.

(** The object returned by [getSyncStatus]. *)
Record SyncStatus : Type := mkSyncStatus {
  unsyncedCount : nat;
  lastSync      : option Z;
  st_isOnline   : bool;
  st_hasWiFi    : bool;
  st_isSyncing  : bool
}.

(** The object returned by [getComplaintPhotos]; [total] is [None] when the
    literal has no [total] field. *)
Record PhotosResult : Type := mkPhotosResult {
  ph_success : bool;
  ph_error   : option string;
  ph_online  : list string;
  ph_offline : list Photo;
  ph_total   : option nat
}.

(** The object returned by the methods of [ComplaintService]; [offline] is
    [false] when the literal has no [offline] field. *)
Record FetchResult (A : Type) : Type := mkFetchResult {
  f_success : bool;
  f_data    : option A;
  f_error   : option string;
  f_offline : bool
}.
Arguments mkFetchResult {A}.
Arguments f_success {A}.
Arguments f_data {A}.
Arguments f_error {A}.
Arguments f_offline {A}.

(* ------------------------------------------------------------------ *)
(** * The world *)

Inductive Key : Type := OFFLINE_PHOTOS | SYNCED_COMPLAINTS | LAST_SYNC.

Record Storage : Type := mkStorage {
  offline_photos    : option (list Photo);
  synced_complaints : option (list Complaint);
  last_sync         : option Z
}.

Inductive Event : Type :=
| EvNetwork
| EvGetItem (k : Key)
| EvSetItem (k : Key)
| EvMultiRemove
| EvApiGet (url : string)
| EvApiPost (url : string) (fd : FormData)
| EvProgress (p : ProgressEvent)
| EvSetSyncStatus (status : SyncStatus).

Record World : Type := mkWorld {
  storage   : Storage;
  isSyncing : bool;          (* the field of the SyncService singleton *)
  tick      : nat;
  trace     : list Event
}.

(** The oracles. *)
Record Env : Type := mkEnv {
  clock                : nat -> Z;
  getNetworkStateAsync : nat -> Res NetworkState;
  getItem_fault        : nat -> option Error;
  setItem_fault        : nat -> option Error;
  multiRemove_fault    : nat -> option Error;
  api_by_complaint_id  : string -> nat -> Res Complaint;
  api_complaints       : nat -> Res Listing;
  api_search           : string -> nat -> Res (list Complaint);
  api_upload_photo     : FormData -> nat -> Res unit
}.

(* ------------------------------------------------------------------ *)
(** * Computations *)

Definition M (A : Type) : Type := World -> Res A * World.

Definition ret {A} (a : A) : M A := fun w => (Ok a, w).

Definition throw {A} (e : Error) : M A := fun w => (Throw e, w).

Definition bind {A B} (m : M A) (k : A -> M B) : M B :=
  fun w =>
    match m w with
    | (Ok a, w') => k a w'
    | (Throw e, w') => (Throw e, w')
    end.

Notation "x <- m ;; k" := (bind m (fun x => k))
  (at level 61, m at next level, right associativity).
Notation "m ;;; k" := (bind m (fun _ => k))
  (at level 61, right associativity).

(** [try { m } catch (e) { h e }] *)
Definition try_catch {A} (m : M A) (h : Error -> M A) : M A :=
  fun w =>
    match m w with
    | (Ok a, w') => (Ok a, w')
    | (Throw e, w') => h e w'
    end.

(** [try { m } finally { f }], for an [f] that cannot throw. *)
Definition try_finally {A} (m : M A) (f : World -> World) : M A :=
  fun w => let (r, w') := m w in (r, f w').

(** One call to the outside: it is recorded and takes one tick. *)
Definition outside (ev : Event) (w : World) : World :=
  mkWorld (storage w) (isSyncing w) (S (tick w)) (trace w ++ [ev])%list.

Definition set_storage (s : Storage) (w : World) : World :=
  mkWorld s (isSyncing w) (tick w) (trace w).

Definition set_isSyncing (b : bool) (w : World) : World :=
  mkWorld (storage w) b (tick w) (trace w).

Definition string_of_nat (n : nat) : string :=
  NilZero.string_of_uint (Nat.to_uint n).

Definition string_of_Z (z : Z) : string :=
  NilZero.string_of_int (Z.to_int z).

Definition msPerDay : Z := 86400000.

Section Runtime.

Variable env : Env.

(** [Date.now()] and [new Date()]. *)
Definition Date_now : M Z :=
  fun w => (Ok (clock env (tick w)),
            mkWorld (storage w) (isSyncing w) (S (tick w)) (trace w)).

(** [AsyncStorage.getItem(key)] followed by the decoding of the text. *)
Definition getItem {A} (k : Key) (read : Storage -> A) : M A :=
  fun w =>
    let w' := outside (EvGetItem k) w in
    match getItem_fault env (tick w) with
    | Some e => (Throw e, w')
    | None => (Ok (read (storage w)), w')
    end.

(** [AsyncStorage.setItem(key, text)]. *)
Definition setItem (k : Key) (write : Storage -> Storage) : M unit :=
  fun w =>
    let w' := outside (EvSetItem k) w in
    match setItem_fault env (tick w) with
    | Some e => (Throw e, w')
    | None => (Ok tt, set_storage (write (storage w)) w')
    end.

Definition write_photos (l : list Photo) (s : Storage) : Storage :=
  mkStorage (Some l) (synced_complaints s) (last_sync s).

Definition write_complaints (l : list Complaint) (s : Storage) : Storage :=
  mkStorage (offline_photos s) (Some l) (last_sync s).

Definition write_last_sync (t : Z) (s : Storage) : Storage :=
  mkStorage (offline_photos s) (synced_complaints s) (Some t).

(** [AsyncStorage.multiRemove] of the three keys. *)
Definition multiRemove : M unit :=
  fun w =>
    let w' := outside EvMultiRemove w in
    match multiRemove_fault env (tick w) with
    | Some e => (Throw e, w')
    | None => (Ok tt, set_storage (mkStorage None None None) w')
    end.

(** [data ? JSON.parse(data) : []] *)
Definition parse_or_empty {A} (data : option (list A)) : list A :=
  match data with Some l => l | None => [] end.

End Runtime.

(* ------------------------------------------------------------------ *)
(** * storageService.js *)

Module StorageService.

Section Methods.

Variable env : Env.

Local Abbreviation Date_now := (Date_now env).
Local Abbreviation getItem := (getItem env).
Local Abbreviation setItem := (setItem env).

Definition getOfflinePhotos : M (list Photo) :=
  try_catch
    (data <- getItem OFFLINE_PHOTOS offline_photos ;;
     ret (parse_or_empty data))
    (fun _ => ret []).

Definition saveOfflinePhoto (cid : string) (photoData : PhotoData) : M Photo :=
  try_catch
    (existingData <- getOfflinePhotos ;;
     t_id <- Date_now ;;
     t_stamp <- Date_now ;;
     let newPhoto :=
       mkPhoto (string_of_Z t_id) cid (pd_uri photoData)
               (pd_fileName photoData) (pd_latitude photoData)
               (pd_longitude photoData) (Some t_stamp) false None in
     let updatedData := (existingData ++ [newPhoto])%list in
     setItem OFFLINE_PHOTOS (write_photos updatedData) ;;;
     ret newPhoto)
    (fun error => throw error).

Definition getOfflinePhotosByComplaint (cid : string) : M (list Photo) :=
  try_catch
    (allPhotos <- getOfflinePhotos ;;
     ret (filter (fun p => String.eqb (complaintId p) cid) allPhotos))
    (fun _ => ret []).

Definition getUnsyncedPhotos : M (list Photo) :=
  try_catch
    (allPhotos <- getOfflinePhotos ;;
     ret (filter (fun p => negb (synced p)) allPhotos))
    (fun _ => ret []).

(** [{ ...photo, synced: true, syncedAt: t }] *)
Definition mark (t : Z) (p : Photo) : Photo :=
  mkPhoto (id p) (complaintId p) (uri p) (fileName p) (latitude p)
          (longitude p) (timestamp p) true (Some t).

(** The arrow function of [allPhotos.map]: [new Date()] is evaluated only
    for an element whose id matches, once per such element. *)
Fixpoint mark_matching (photoId : string) (l : list Photo) : M (list Photo) :=
  match l with
  | [] => ret []
  | p :: l' =>
      if String.eqb (id p) photoId then
        t <- Date_now ;;
        rest <- mark_matching photoId l' ;;
        ret (mark t p :: rest)
      else
        rest <- mark_matching photoId l' ;;
        ret (p :: rest)
  end.

Definition markPhotoAsSynced (photoId : string) : M unit :=
  try_catch
    (allPhotos <- getOfflinePhotos ;;
     updatedPhotos <- mark_matching photoId allPhotos ;;
     setItem OFFLINE_PHOTOS (write_photos updatedPhotos))
    (fun error => throw error).

(** The predicate of [allPhotos.filter] in [cleanupSyncedPhotos].  A missing
    or unreadable [syncedAt] gives an invalid date, and every comparison with
    an invalid date is false. *)
Definition keepPhoto (sevenDaysAgo : Z) (p : Photo) : bool :=
  if negb (synced p) then true
  else match syncedAt p with
       | Some syncedDate => Z.ltb sevenDaysAgo syncedDate
       | None => false
       end.

Definition cleanupSyncedPhotos : M unit :=
  try_catch
    (allPhotos <- getOfflinePhotos ;;
     now <- Date_now ;;
     let sevenDaysAgo := (now - 7 * msPerDay)%Z in
     let filteredPhotos := filter (keepPhoto sevenDaysAgo) allPhotos in
     setItem OFFLINE_PHOTOS (write_photos filteredPhotos))
    (fun _ => ret tt).

Definition getSyncedComplaints : M (list Complaint) :=
  try_catch
    (data <- getItem SYNCED_COMPLAINTS synced_complaints ;;
     ret (parse_or_empty data))
    (fun _ => ret []).

Definition same_id (cid : string) (c : Complaint) : bool :=
  String.eqb (complaint_id c) cid.

(** [findIndex]; [None] stands for -1. *)
Fixpoint findIndex {A} (f : A -> bool) (l : list A) : option nat :=
  match l with
  | [] => None
  | x :: l' =>
      if f x then Some 0
      else match findIndex f l' with
           | Some i => Some (S i)
           | None => None
           end
  end.

(** [a[index] = x] for an index inside the array. *)
Fixpoint assign {A} (index : nat) (x : A) (l : list A) : list A :=
  match l, index with
  | [], _ => []
  | _ :: l', 0 => x :: l'
  | y :: l', S i => y :: assign i x l'
  end.

Definition upsert (complaint : Complaint) (existing : list Complaint)
  : list Complaint :=
  match findIndex (same_id (complaint_id complaint)) existing with
  | Some index => assign index complaint existing
  | None => (existing ++ [complaint])%list
  end.

Definition saveSyncedComplaint (complaint : Complaint) : M unit :=
  try_catch
    (existingComplaints <- getSyncedComplaints ;;
     setItem SYNCED_COMPLAINTS
             (write_complaints (upsert complaint existingComplaints)))
    (fun _ => ret tt).

Definition getComplaintById (cid : string) : M (option Complaint) :=
  try_catch
    (complaints <- getSyncedComplaints ;;
     ret (find (same_id cid) complaints))
    (fun _ => ret None).

Definition updateLastSync : M unit :=
  try_catch
    (now <- Date_now ;;
     setItem LAST_SYNC (write_last_sync now))
    (fun _ => ret tt).

Definition getLastSync : M (option Z) :=
  try_catch
    (getItem LAST_SYNC last_sync)
    (fun _ => ret None).

Definition clearAll : M unit :=
  try_catch (multiRemove env) (fun _ => ret tt).

End Methods.

End StorageService.

(* ------------------------------------------------------------------ *)
(** * syncService.js: class SyncService *)

Module SyncService.

Section Methods.

Variable env : Env.

(** [API_BASE_URL], imported from [config/api]. *)
Variable API_BASE_URL : string.

Local Abbreviation Date_now := (Date_now env).

(** [new SyncService()] on a device whose storage is [s]. *)
Definition constructor (s : Storage) : World := mkWorld s false 0 [].

Definition Network_getNetworkStateAsync : M NetworkState :=
  fun w => (getNetworkStateAsync env (tick w), outside EvNetwork w).

Definition api_get_complaints : M Listing :=
  fun w => (api_complaints env (tick w),
            outside (EvApiGet "/api/complaints/") w).

Definition api_post_upload_photo (formData : FormData) : M unit :=
  fun w => (api_upload_photo env formData (tick w),
            outside (EvApiPost "/api/upload-photo/" formData) w).

Definition isConnectedToWiFi : M bool :=
  try_catch
    (networkState <- Network_getNetworkStateAsync ;;
     ret (isConnected networkState && isWIFI (netType networkState)))
    (fun _ => ret false).

Definition isOnline : M bool :=
  try_catch
    (networkState <- Network_getNetworkStateAsync ;;
     ret (isConnected networkState && isInternetReachable networkState))
    (fun _ => ret false).

Definition unreachable (testError : Error) : Error :=
  mkError ("Cannot reach server at " ++ API_BASE_URL ++ ". Error: "
           ++ err_message testError
           ++ ". Please check your WiFi connection and ensure you're on the same network as the server.")
          None.

(** A string is truthy when it is not empty, a number when it is not 0. *)
Definition truthy_string (o : option string) : bool :=
  match o with Some s => negb (String.eqb s "") | None => false end.

Definition truthy_number (o : option Z) : bool :=
  match o with Some z => negb (Z.eqb z 0) | None => false end.

Definition location_of (p : Photo) : option (Z * Z) :=
  match latitude p, longitude p with
  | Some la, Some lo =>
      if truthy_number (latitude p) && truthy_number (longitude p)
      then Some (la, lo) else None
  | _, _ => None
  end.

Definition uploadPhoto (p : Photo) : M unit :=
  try_catch
    (try_catch
       (api_get_complaints ;;; ret tt)
       (fun testError => throw (unreachable testError)) ;;;
     name <- (match fileName p with
              | Some s => if truthy_string (fileName p) then ret s
                          else (t <- Date_now ;;
                                ret ("photo_" ++ string_of_Z t ++ ".jpg"))
              | None => (t <- Date_now ;;
                         ret ("photo_" ++ string_of_Z t ++ ".jpg"))
              end) ;;
     let formData :=
       mkFormData (complaintId p) (uri p) name (location_of p)
                  (timestamp p) in
     api_post_upload_photo formData)
    (fun error => throw error).

Definition callback (onProgress : option Callback) (ev : ProgressEvent)
  : M unit :=
  match onProgress with
  | Some f => fun w =>
      (f ev, mkWorld (storage w) (isSyncing w) (tick w)
                     (trace w ++ [EvProgress ev])%list)
  | None => ret tt
  end.

(** The body of the [for] loop, from index [i] on; [n] is
    [unsyncedPhotos.length] and [rest] the elements from index [i]. *)
Fixpoint syncLoop (onProgress : option Callback) (n i : nat)
         (rest : list Photo) (successCount failCount : nat)
  : M (nat * nat) :=
  match rest with
  | [] => ret (successCount, failCount)
  | p :: rest' =>
      callback onProgress (mkProgress (i + 1) n p) ;;;
      uploaded <- try_catch
                    (uploadPhoto p ;;;
                     StorageService.markPhotoAsSynced env (id p) ;;;
                     ret true)
                    (fun _ => ret false) ;;
      if uploaded
      then syncLoop onProgress n (S i) rest' (S successCount) failCount
      else syncLoop onProgress n (S i) rest' successCount (S failCount)
  end.

Definition synced_message (successCount failCount : nat) : string :=
  "Synced " ++ string_of_nat successCount ++ " photos"
  ++ (if Nat.ltb 0 failCount then ", " ++ string_of_nat failCount ++ " failed"
      else "").

Definition rejected (msg : string) : SyncResult :=
  mkSyncResult false msg None None None.

(** The [try] block of [syncPhotos]. *)
Definition syncPhotos_try (onProgress : option Callback) : M SyncResult :=
  (fun w => (Ok tt, set_isSyncing true w)) ;;;
  hasWiFi <- isConnectedToWiFi ;;
  if negb hasWiFi
  then ret (rejected "WiFi connection required for syncing")
  else
    unsyncedPhotos <- StorageService.getUnsyncedPhotos env ;;
    if Nat.eqb (List.length unsyncedPhotos) 0
    then ret (mkSyncResult true "No photos to sync" (Some 0) None None)
    else
      counts <- syncLoop onProgress (List.length unsyncedPhotos) 0
                         unsyncedPhotos 0 0 ;;
      StorageService.updateLastSync env ;;;
      StorageService.cleanupSyncedPhotos env ;;;
      ret (mkSyncResult true (synced_message (fst counts) (snd counts))
                        None (Some (fst counts)) (Some (snd counts))).

Definition syncPhotos (onProgress : option Callback) : M SyncResult :=
  fun w =>
    if isSyncing w
    then (Ok (rejected "Sync already in progress"), w)
    else
      try_finally
        (try_catch (syncPhotos_try onProgress)
                   (fun error => ret (rejected (err_message error))))
        (set_isSyncing false) w.

Definition autoSync (onProgress : option Callback) : M SyncResult :=
  hasWiFi <- isConnectedToWiFi ;;
  if hasWiFi then syncPhotos onProgress
  else ret (rejected "No WiFi connection").

Definition getSyncStatus : M SyncStatus :=
  unsyncedPhotos <- StorageService.getUnsyncedPhotos env ;;
  lastSync <- StorageService.getLastSync env ;;
  isOnline <- isOnline ;;
  hasWiFi <- isConnectedToWiFi ;;
  fun w =>
    (Ok (mkSyncStatus (List.length unsyncedPhotos) lastSync isOnline hasWiFi
                      (isSyncing w)), w).

End Methods.

End SyncService.

(* ------------------------------------------------------------------ *)
(** * syncService.js: class ComplaintService *)

Module ComplaintService.

Section Methods.

Variable env : Env.

Definition api_get_by_complaint_id (cid : string) : M Complaint :=
  fun w => (api_by_complaint_id env cid (tick w),
            outside (EvApiGet ("/api/complaints/by_complaint_id/" ++ cid
                               ++ "/")) w).

Definition api_get_search (query : string) : M (list Complaint) :=
  fun w => (api_search env query (tick w),
            outside (EvApiGet "/api/complaints/search/") w).

Definition api_get_complaints : M Listing :=
  fun w => (api_complaints env (tick w),
            outside (EvApiGet "/api/complaints/") w).

(** [error.response?.data?.detail || fallback] *)
Definition detail_or (error : Error) (fallback : string) : string :=
  match err_detail error with
  | Some d => if String.eqb d "" then fallback else d
  | None => fallback
  end.

Definition getComplaintById (cid : string) : M (FetchResult Complaint) :=
  try_catch
    (data <- api_get_by_complaint_id cid ;;
     StorageService.saveSyncedComplaint env data ;;;
     ret (mkFetchResult true (Some data) None false))
    (fun error =>
       offlineData <- StorageService.getComplaintById env cid ;;
       match offlineData with
       | Some c => ret (mkFetchResult true (Some c) None true)
       | None =>
           ret (mkFetchResult false None
                              (Some (detail_or error "Complaint not found"))
                              true)
       end).

Definition searchComplaints (query : string)
  : M (FetchResult (list Complaint)) :=
  try_catch
    (data <- api_get_search query ;;
     ret (mkFetchResult true (Some data) None false))
    (fun error =>
       ret (mkFetchResult false None
                          (Some (detail_or error "Search failed")) false)).

(** [for (const complaint of response.data.results)] *)
Fixpoint saveEach (l : list Complaint) : M unit :=
  match l with
  | [] => ret tt
  | complaint :: l' =>
      StorageService.saveSyncedComplaint env complaint ;;; saveEach l'
  end.

Definition getAllComplaints : M (FetchResult Listing) :=
  try_catch
    (data <- api_get_complaints ;;
     match results data with
     | Some l => saveEach l
     | None => ret tt
     end ;;;
     ret (mkFetchResult true (Some data) None false))
    (fun error =>
       offlineData <- StorageService.getSyncedComplaints env ;;
       if Nat.ltb 0 (List.length offlineData)
       then ret (mkFetchResult true (Some (mkListing (Some offlineData)))
                               None true)
       else ret (mkFetchResult false None
                               (Some (detail_or error
                                        "Failed to fetch complaints"))
                               false)).

(** [complaintResult.data?.geotagged_photos || []] *)
Definition onlinePhotos_of (complaintResult : FetchResult Complaint)
  : list string :=
  match f_data complaintResult with
  | Some c => match geotagged_photos c with Some l => l | None => [] end
  | None => []
  end.

Definition getComplaintPhotos (cid : string) : M PhotosResult :=
  try_catch
    (complaintResult <- getComplaintById cid ;;
     let onlinePhotos := onlinePhotos_of complaintResult in
     offlinePhotos <- StorageService.getOfflinePhotosByComplaint env cid ;;
     ret (mkPhotosResult true None onlinePhotos offlinePhotos
            (Some (List.length onlinePhotos + List.length offlinePhotos)%nat)))
    (fun error =>
       ret (mkPhotosResult false (Some (err_message error)) [] [] None)).

End Methods.

End ComplaintService.

(* ------------------------------------------------------------------ *)
(** * HomeScreen.js: the timer of the automatic synchronisation *)

Module HomeScreen.

Section Methods.

Variable env : Env.
Variable API_BASE_URL : string.

(** The setter of the React state [syncStatus]; the call is recorded. *)
Definition setSyncStatus (status : SyncStatus) : M unit :=
  fun w => (Ok tt, mkWorld (storage w) (isSyncing w) (tick w)
                           (trace w ++ [EvSetSyncStatus status])%list).

Definition loadSyncStatus : M unit :=
  status <- SyncService.getSyncStatus env ;;
  setSyncStatus status.

(** The function called every 30 seconds; [autoSync] is called without a
    callback. *)
Definition checkAndAutoSync : M unit :=
  status <- SyncService.getSyncStatus env ;;
  setSyncStatus status ;;;
  if st_hasWiFi status && Nat.ltb 0 (unsyncedCount status)
  then SyncService.autoSync env API_BASE_URL None ;;; loadSyncStatus
  else ret tt.

End Methods.

End HomeScreen.

(* ------------------------------------------------------------------ *)
(** * Drivers and sample data *)

(** What [isConnectedToWiFi] answers when the network is probed at tick
    [t]. *)
Definition wifi_at (env : Env) (t : nat) : bool :=
  match getNetworkStateAsync env t with
  | Ok networkState => isConnected networkState && isWIFI (netType networkState)
  | Throw _ => false
  end.

(** What [isOnline] answers when the network is probed at tick [t]. *)
Definition online_at (env : Env) (t : nat) : bool :=
  match getNetworkStateAsync env t with
  | Ok networkState =>
      isConnected networkState && isInternetReachable networkState
  | Throw _ => false
  end.

(** Invocations of [syncPhotos] one after the other, each one awaited before
    the next one starts. *)
Fixpoint invocations (env : Env) (url : string)
         (cbs : list (option Callback)) : M unit :=
  match cbs with
  | [] => ret tt
  | cb :: cbs' =>
      SyncService.syncPhotos env url cb ;;; invocations env url cbs'
  end.

(** The progress events of a trace, in order. *)
Fixpoint progress_of (tr : list Event) : list ProgressEvent :=
  match tr with
  | [] => []
  | EvProgress p :: tr' => p :: progress_of tr'
  | _ :: tr' => progress_of tr'
  end.

(** The progress events a pass over [l] reports, from index [i] on. *)
Fixpoint progress_from (n i : nat) (l : list Photo) : list ProgressEvent :=
  match l with
  | [] => []
  | p :: l' => mkProgress (i + 1) n p :: progress_from n (S i) l'
  end.

(** A callback that returns normally on every event. *)
Definition never_throws (onProgress : option Callback) : Prop :=
  match onProgress with
  | Some f => forall ev, f ev = Ok tt
  | None => True
  end.

(** The entry of the collection [l] whose id is [i]. *)
Definition lookup_photo (i : string) (l : list Photo) : option Photo :=
  find (fun p => String.eqb (id p) i) l.

Definition photos_of (w : World) : list Photo :=
  parse_or_empty (offline_photos (storage w)).

Definition complaints_of (w : World) : list Complaint :=
  parse_or_empty (synced_complaints (storage w)).

(** A computation is quiet when it leaves the [isSyncing] flag alone, does
    not call the progress callback, and only moves the logical time
    forward. *)
Definition quiet {A} (m : M A) : Prop :=
  forall w r w', m w = (r, w') ->
    isSyncing w' = isSyncing w
    /\ progress_of (trace w') = progress_of (trace w)
    /\ tick w <= tick w'.

(** A computation that does not write to AsyncStorage. *)
Definition keeps_store {A} (m : M A) : Prop :=
  forall w r w', m w = (r, w') -> storage w' = storage w.

(** A computation that leaves one part of the store as it is. *)
Definition preserves {A X} (part : Storage -> X) (m : M A) : Prop :=
  forall w r w', m w = (r, w') -> part (storage w') = part (storage w).

(** A computation that resolves, whatever the outside does. *)
Definition never_rejects {A} (m : M A) : Prop :=
  forall w, exists a, fst (m w) = Ok a.

(** The path of the lookup of one complaint. *)
Definition by_id_url (cid : string) : string :=
  "/api/complaints/by_complaint_id/" ++ cid ++ "/".

(** The collection after [saveSyncedComplaint] of each element of [l], in
    order. *)
Definition upsert_all (l existing : list Complaint) : list Complaint :=
  fold_left (fun acc c => StorageService.upsert c acc) l existing.

(** AsyncStorage never fails. *)
Definition no_storage_faults (env : Env) : Prop :=
  (forall t, getItem_fault env t = None)
  /\ (forall t, setItem_fault env t = None).

(** The [try] and [catch] inside the loop, for the photo [p]. *)
Definition attempt env url (p : Photo) : M bool :=
  try_catch
    (SyncService.uploadPhoto env url p ;;;
     StorageService.markPhotoAsSynced env (id p) ;;;
     ret true)
    (fun _ => ret false).

(** The list that [getUnsyncedPhotos] hands to a pass that starts in [w]:
    the network is probed at the tick of [w], the store is read at the
    next one. *)
Definition snapshot_of (env : Env) (w : World) : list Photo :=
  filter (fun p => negb (synced p))
         (match getItem_fault env (S (tick w)) with
          | None => photos_of w
          | Some _ => []
          end).

(** The world in which the loop of a pass that started in [w] begins. *)
Definition loop_start (w : World) : World :=
  outside (EvGetItem OFFLINE_PHOTOS)
          (outside EvNetwork (set_isSyncing true w)).

(** The two statements after the loop. *)
Definition after_loop (env : Env) (w : World) : World :=
  snd (StorageService.cleanupSyncedPhotos env
         (snd (StorageService.updateLastSync env w))).

(** The entry with the id of [p] in [l] is marked synced. *)
Definition synced_in (l : list Photo) (p : Photo) : bool :=
  match lookup_photo (id p) l with
  | Some q => synced q
  | None => false
  end.

(** The entry with the id of [p] in [l] is there and is not synced. *)
Definition pending_in (l : list Photo) (p : Photo) : bool :=
  match lookup_photo (id p) l with
  | Some q => negb (synced q)
  | None => false
  end.

(** [l'] is [l] where some entries have been marked synced: same length,
    same order, every entry either untouched or marked. *)
Definition marks_only (l l' : list Photo) : Prop :=
  Forall2 (fun p p' => p' = p \/ exists t, p' = StorageService.mark t p)
          l l'.

(** The server answers every request and accepts every upload. *)
Definition server_up (env : Env) : Prop :=
  (forall t, exists listing, api_complaints env t = Ok listing)
  /\ (forall formData t, api_upload_photo env formData t = Ok tt).

(** The status that [getSyncStatus] reports in [w]. *)
Definition status_at (env : Env) (w : World) : SyncStatus :=
  mkSyncStatus
    (List.length
       (filter (fun p => negb (synced p))
               (match getItem_fault env (tick w) with
                | None => photos_of w
                | Some _ => []
                end)))
    (match getItem_fault env (1 + tick w) with
     | None => last_sync (storage w)
     | Some _ => None
     end)
    (online_at env (2 + tick w))
    (wifi_at env (3 + tick w))
    (isSyncing w).

(** The forms posted to the upload endpoint in a trace, in order. *)
Fixpoint posts_of (tr : list Event) : list FormData :=
  match tr with
  | [] => []
  | EvApiPost _ fd :: tr' => fd :: posts_of tr'
  | _ :: tr' => posts_of tr'
  end.

(** The server cannot be reached. *)
Definition server_down (env : Env) : Prop :=
  forall t, exists error, api_complaints env t = Throw error.

Module Sample.

Definition url : string := "http://192.168.1.5:8000".

Definition wifi : NetworkState := mkNetworkState true NT_WIFI true.
Definition cellular : NetworkState := mkNetworkState true NT_CELLULAR true.

Definition timeout : Error := mkError "timeout of 60000ms exceeded" None.
Definition disk_full : Error := mkError "database or disk is full" None.
Definition not_found : Error := mkError "Request failed with status code 404" None.

Definition shot (i u : string) : Photo :=
  mkPhoto i "PMC2024001" u (Some "site.jpg") None None (Some 5%Z) false None.

Definition road : Complaint := mkComplaint "PMC2024001" "pothole" None.
Definition lamp : Complaint := mkComplaint "PMC2024002" "street light" None.

(** Every call to the outside succeeds, except the upload of [c.jpg]. *)
Definition env : Env :=
  mkEnv (fun t => (1000 + Z.of_nat t)%Z)
        (fun _ => Ok wifi)
        (fun _ => None) (fun _ => None) (fun _ => None)
        (fun cid _ => Ok (mkComplaint cid "pothole" None))
        (fun _ => Ok (mkListing (Some [road; lamp])))
        (fun _ _ => Ok [road])
        (fun fd _ => if String.eqb (fd_photo_uri fd) "c.jpg"
                     then Throw timeout else Ok tt).

(** The device is on a cellular network and the server cannot be reached. *)
Definition env_away : Env :=
  mkEnv (fun t => (1000 + Z.of_nat t)%Z)
        (fun _ => Ok cellular)
        (fun _ => None) (fun _ => None) (fun _ => None)
        (fun _ _ => Throw not_found)
        (fun _ => Throw not_found)
        (fun _ _ => Throw not_found)
        (fun _ _ => Throw timeout).


(** Nothing fails and the clock stands at [now]. *)
Definition env_at (now : Z) : Env :=
  mkEnv (fun _ => now)
        (fun _ => Ok wifi)
        (fun _ => None) (fun _ => None) (fun _ => None)
        (fun cid _ => Ok (mkComplaint cid "pothole" None))
        (fun _ => Ok (mkListing (Some [road; lamp])))
        (fun _ _ => Ok [road])
        (fun _ _ => Ok tt).

(** The server answers the first request only. *)
Definition env_outage : Env :=
  mkEnv (fun t => (1000 + Z.of_nat t)%Z)
        (fun _ => Ok wifi)
        (fun _ => None) (fun _ => None) (fun _ => None)
        (fun cid t => if Nat.eqb t 0
                      then Ok (mkComplaint cid "pothole" None)
                      else Throw not_found)
        (fun t => if Nat.eqb t 0
                  then Ok (mkListing (Some [road; lamp]))
                  else Throw not_found)
        (fun _ _ => Throw not_found)
        (fun _ _ => Throw timeout).

(** The device is on WiFi and the server does not answer. *)
Definition env_down : Env :=
  mkEnv (fun t => (1000 + Z.of_nat t)%Z)
        (fun _ => Ok wifi)
        (fun _ => None) (fun _ => None) (fun _ => None)
        (fun _ _ => Throw not_found)
        (fun _ => Throw not_found)
        (fun _ _ => Throw not_found)
        (fun _ _ => Throw timeout).

(** AsyncStorage fails every read. *)
Definition env_unreadable : Env :=
  mkEnv (fun t => (1000 + Z.of_nat t)%Z)
        (fun _ => Ok wifi)
        (fun _ => Some disk_full) (fun _ => None) (fun _ => None)
        (fun _ _ => Throw not_found)
        (fun _ => Throw not_found)
        (fun _ _ => Throw not_found)
        (fun _ _ => Ok tt).

Definition sent (i : string) (t : Z) : Photo :=
  mkPhoto i "PMC2024001" "a.jpg" (Some "site.jpg") None None (Some 5%Z)
          true (Some t).

(** Day 8 is now; one photo was sent on day 0, one exactly seven days ago,
    one a day ago, one is pending since day 0. *)
Definition day (n : Z) : Z := (n * msPerDay)%Z.

Definition aged : World :=
  SyncService.constructor
    (mkStorage (Some [sent "1" (day 0); sent "2" (day 1); sent "3" (day 7);
                      shot "4" "d.jpg"])
               None None).

(** A callback that throws when it is told about the second photo. *)
Definition throws_on_second : Callback :=
  fun ev => if Nat.eqb (current ev) 2 then Throw timeout else Ok tt.

Definition three : Storage :=
  mkStorage (Some [shot "1" "a.jpg"; shot "2" "c.jpg"; shot "3" "b.jpg"])
            None None.

Definition idle : World := SyncService.constructor three.

(** A device that has seen the complaint [road] before. *)
Definition cached : World :=
  SyncService.constructor (mkStorage None (Some [road]) None).

(** A device that was never used. *)
Definition fresh : World :=
  SyncService.constructor (mkStorage None None None).

Definition busy : World := set_isSyncing true idle.

(** Two pending photos saved under the same id; the upload of the second
    one fails. *)
Definition twins : World :=
  SyncService.constructor
    (mkStorage (Some [shot "1" "a.jpg"; shot "1" "c.jpg"]) None None).

End Sample.

(* ------------------------------------------------------------------ *)
(** * The entry guard and the WiFi precondition *)

Lemma isConnectedToWiFi_eq env w :
  SyncService.isConnectedToWiFi env w
  = (Ok (wifi_at env (tick w)), outside EvNetwork w).
Proof.
  unfold SyncService.isConnectedToWiFi, try_catch, bind, ret, wifi_at,
    SyncService.Network_getNetworkStateAsync.
  destruct (getNetworkStateAsync env (tick w)); reflexivity.
Qed.

Lemma world_eta w :
  mkWorld (storage w) (isSyncing w) (tick w) (trace w) = w.
Proof. destruct w; reflexivity. Qed.

(** [syncPhotos] always resolves: the [catch] turns every error into a
    result. *)
Lemma syncPhotos_resolves env url cb w :
  exists r, fst (SyncService.syncPhotos env url cb w) = Ok r.
Proof.
  unfold SyncService.syncPhotos.
  destruct (isSyncing w); [eexists; reflexivity|].
  unfold try_finally, try_catch.
  destruct (SyncService.syncPhotos_try env url cb w) as [[r|e] w'];
    simpl; eexists; reflexivity.
Qed.

Lemma syncPhotos_idle_resets env url cb w :
  isSyncing w = false ->
  isSyncing (snd (SyncService.syncPhotos env url cb w)) = false.
Proof.
  intros H. unfold SyncService.syncPhotos. rewrite H.
  unfold try_finally.
  destruct (try_catch _ _ w) as [r w']. reflexivity.
Qed.

(** C3: while a pass is running ([isSyncing] is true) an invocation of
    [syncPhotos] returns at once the failure "Sync already in progress" and
    leaves the whole world as it was: the store, the flag, the clock of
    outside calls and the trace, so that no upload, no store operation, no
    cursor update and no cleanup took place. *)
Theorem syncPhotos_rejected_while_running env url cb w :
  isSyncing w = true ->
  SyncService.syncPhotos env url cb w
  = (Ok (mkSyncResult false "Sync already in progress" None None None), w).
Proof.
  intros H. unfold SyncService.syncPhotos. rewrite H. reflexivity.
Qed.

Lemma syncPhotos_rejected_while_running_witness :
  isSyncing Sample.busy = true /\
  SyncService.syncPhotos Sample.env Sample.url None Sample.busy
  = (Ok (mkSyncResult false "Sync already in progress" None None None),
     Sample.busy).
Proof.
  split; [reflexivity|].
  apply (syncPhotos_rejected_while_running Sample.env Sample.url None
           Sample.busy).
  reflexivity.
Defined.

(** C2: when no pass is running and the connectivity check does not answer
    WiFi (not connected, another network type, or the probe throws),
    [syncPhotos] returns the failure "WiFi connection required for syncing";
    the only call to the outside is the network probe, so the store (pending
    list, every synced flag, the cursor) is unchanged and neither an upload
    nor the cleanup ran; the flag is false again. *)
Theorem syncPhotos_requires_wifi env url cb w :
  isSyncing w = false ->
  wifi_at env (tick w) = false ->
  SyncService.syncPhotos env url cb w
  = (Ok (mkSyncResult false "WiFi connection required for syncing"
                      None None None),
     outside EvNetwork w)
  /\ storage (outside EvNetwork w) = storage w
  /\ trace (outside EvNetwork w) = (trace w ++ [EvNetwork])%list.
Proof.
  intros Hidle Hwifi. split; [|split; reflexivity].
  unfold SyncService.syncPhotos. rewrite Hidle.
  unfold try_finally, try_catch, SyncService.syncPhotos_try.
  unfold bind at 1. simpl.
  unfold bind at 1. rewrite isConnectedToWiFi_eq. simpl.
  rewrite Hwifi. simpl.
  unfold outside, set_isSyncing. simpl. rewrite Hidle. reflexivity.
Qed.

Lemma syncPhotos_requires_wifi_witness :
  SyncService.syncPhotos Sample.env_away Sample.url None Sample.idle
  = (Ok (mkSyncResult false "WiFi connection required for syncing"
                      None None None),
     outside EvNetwork Sample.idle)
  /\ storage (outside EvNetwork Sample.idle) = storage Sample.idle
  /\ trace (outside EvNetwork Sample.idle)
     = (trace Sample.idle ++ [EvNetwork])%list.
Proof.
  apply (syncPhotos_requires_wifi Sample.env_away Sample.url None Sample.idle);
    reflexivity.
Defined.

Lemma invocations_idle env url cbs : forall w,
  isSyncing w = false ->
  fst (invocations env url cbs w) = Ok tt /\
  isSyncing (snd (invocations env url cbs w)) = false.
Proof.
  induction cbs as [|cb cbs IH]; intros w Hw; simpl.
  - split; [reflexivity | exact Hw].
  - unfold bind.
    destruct (syncPhotos_resolves env url cb w) as [r Hr].
    pose proof (syncPhotos_idle_resets env url cb w Hw) as Hf.
    destruct (SyncService.syncPhotos env url cb w) as [r' w'].
    simpl in Hr, Hf. subst r'. apply IH. exact Hf.
Qed.

(** C10, the claim as worded fails: an invocation that the entry guard
    rejects returns while the flag is still true (the flag belongs to the
    pass that is running). *)
Lemma syncPhotos_guard_keeps_flag :
  isSyncing
    (snd (SyncService.syncPhotos Sample.env Sample.url None Sample.busy))
  = true.
Proof. reflexivity. Qed.

(** C10, amended: every invocation of [syncPhotos] that gets past the entry
    guard leaves [isSyncing] false when it returns, whatever the network,
    the store, the server and the callback do (no WiFi, empty queue, an
    error caught by the outer [catch], a full pass); hence after any
    sequence of invocations, each awaited before the next, on a service
    where no pass is running, the flag is false and the next invocation is
    not stopped by the guard. *)
Theorem syncPhotos_releases_flag env url :
  (forall cb w,
      isSyncing w = false ->
      isSyncing (snd (SyncService.syncPhotos env url cb w)) = false)
  /\ (forall cbs s,
      isSyncing
        (snd (invocations env url cbs (SyncService.constructor s))) = false)
  /\ (forall cbs w,
      isSyncing w = false ->
      isSyncing (snd (invocations env url cbs w)) = false).
Proof.
  split; [|split].
  - intros cb w. apply syncPhotos_idle_resets.
  - intros cbs s. apply invocations_idle. reflexivity.
  - intros cbs w Hw. apply invocations_idle. exact Hw.
Qed.

(* ------------------------------------------------------------------ *)
(** * The local store *)

Lemma getOfflinePhotos_eq env w :
  StorageService.getOfflinePhotos env w
  = (Ok (match getItem_fault env (tick w) with
         | None => photos_of w
         | Some _ => []
         end),
     outside (EvGetItem OFFLINE_PHOTOS) w).
Proof.
  unfold StorageService.getOfflinePhotos, try_catch, bind, getItem, ret,
    photos_of.
  destruct (getItem_fault env (tick w)); reflexivity.
Qed.

Lemma getSyncedComplaints_eq env w :
  StorageService.getSyncedComplaints env w
  = (Ok (match getItem_fault env (tick w) with
         | None => complaints_of w
         | Some _ => []
         end),
     outside (EvGetItem SYNCED_COMPLAINTS) w).
Proof.
  unfold StorageService.getSyncedComplaints, try_catch, bind, getItem, ret,
    complaints_of.
  destruct (getItem_fault env (tick w)); reflexivity.
Qed.

Lemma getUnsyncedPhotos_eq env w :
  StorageService.getUnsyncedPhotos env w
  = (Ok (filter (fun p => negb (synced p))
                (match getItem_fault env (tick w) with
                 | None => photos_of w
                 | Some _ => []
                 end)),
     outside (EvGetItem OFFLINE_PHOTOS) w).
Proof.
  unfold StorageService.getUnsyncedPhotos, try_catch, bind, ret.
  rewrite getOfflinePhotos_eq. reflexivity.
Qed.

Lemma keepPhoto_iff sevenDaysAgo p :
  StorageService.keepPhoto sevenDaysAgo p = true
  <-> synced p = false
      \/ exists t, syncedAt p = Some t /\ (sevenDaysAgo < t)%Z.
Proof.
  unfold StorageService.keepPhoto.
  destruct (synced p); simpl.
  - destruct (syncedAt p) as [t|].
    + rewrite Z.ltb_lt. split.
      * intros H. right. exists t. split; [reflexivity | exact H].
      * intros [H|[t' [Ht' H]]]; [discriminate|]. congruence.
    + split; [discriminate|].
      intros [H|[t' [Ht' _]]]; discriminate.
  - split; [intros _; left; reflexivity | reflexivity].
Qed.

Lemma cleanupSyncedPhotos_eq env w :
  getItem_fault env (tick w) = None ->
  setItem_fault env (S (S (tick w))) = None ->
  StorageService.cleanupSyncedPhotos env w
  = (Ok tt,
     mkWorld (write_photos
                (filter (StorageService.keepPhoto
                           (clock env (S (tick w)) - 7 * msPerDay))
                        (photos_of w))
                (storage w))
             (isSyncing w) (S (S (S (tick w))))
             (trace w ++ [EvGetItem OFFLINE_PHOTOS]
                     ++ [EvSetItem OFFLINE_PHOTOS])%list).
Proof.
  intros Hr Hw.
  unfold StorageService.cleanupSyncedPhotos, try_catch.
  unfold bind at 1. rewrite getOfflinePhotos_eq, Hr.
  unfold bind, Date_now, setItem, outside, set_storage. simpl.
  rewrite Hw. rewrite <- app_assoc. reflexivity.
Qed.

(** C5, the claim as worded fails: on day 8 a photo that was marked synced
    exactly seven days earlier (not more than seven days) is removed, with
    the one sent eight days earlier. *)
Lemma cleanupSyncedPhotos_removes_at_seven_days :
  photos_of (snd (StorageService.cleanupSyncedPhotos
                    (Sample.env_at (Sample.day 8)) Sample.aged))
  = [Sample.sent "3" (Sample.day 7); Sample.shot "4" "d.jpg"]
  /\ In (Sample.sent "2" (Sample.day 1)) (photos_of Sample.aged)
  /\ (Sample.day 8 - Sample.day 1 = 7 * msPerDay)%Z.
Proof.
  split; [vm_compute; reflexivity|].
  split; [right; left; reflexivity | reflexivity].
Qed.

(** C5, amended: when AsyncStorage does not fail, [cleanupSyncedPhotos]
    keeps the collection in order and removes exactly the entries with
    [synced] true whose [syncedAt] is seven days or more before the current
    time, or cannot be read as a date.  It never removes an entry with
    [synced] false, and it keeps every synced entry younger than seven
    days. *)
Theorem cleanupSyncedPhotos_retention env w :
  getItem_fault env (tick w) = None ->
  setItem_fault env (S (S (tick w))) = None ->
  let now := clock env (S (tick w)) in
  let w' := snd (StorageService.cleanupSyncedPhotos env w) in
  fst (StorageService.cleanupSyncedPhotos env w) = Ok tt
  /\ photos_of w'
     = filter (StorageService.keepPhoto (now - 7 * msPerDay)) (photos_of w)
  /\ (forall p, In p (photos_of w') -> In p (photos_of w))
  /\ (forall p, In p (photos_of w) -> synced p = false ->
                In p (photos_of w'))
  /\ (forall p t, In p (photos_of w) -> syncedAt p = Some t ->
                  (now - t < 7 * msPerDay)%Z -> In p (photos_of w'))
  /\ (forall p t, In p (photos_of w) -> synced p = true ->
                  syncedAt p = Some t -> (7 * msPerDay <= now - t)%Z ->
                  ~ In p (photos_of w'))
  /\ (forall p, In p (photos_of w) -> synced p = true ->
                syncedAt p = None -> ~ In p (photos_of w')).
Proof.
  intros Hr Hw now w'. subst w'.
  rewrite (cleanupSyncedPhotos_eq env w Hr Hw). simpl.
  fold now. unfold photos_of at 1 3 5 7 9 11. simpl.
  split; [reflexivity|]. split; [reflexivity|].
  split; [intros p Hp; apply filter_In in Hp; tauto|].
  split; [intros p Hp Hs; apply filter_In; split; [exact Hp|];
          apply keepPhoto_iff; left; exact Hs|].
  split; [intros p t Hp Ht Hlt; apply filter_In; split; [exact Hp|];
          apply keepPhoto_iff; right; exists t; split; [exact Ht | lia]|].
  split.
  - intros p t Hp Hs Ht Hle Hin. apply filter_In in Hin.
    destruct Hin as [_ Hk]. apply keepPhoto_iff in Hk.
    destruct Hk as [Hk|[t' [Ht' Hk]]]; [congruence|].
    assert (t' = t) by congruence. subst t'. lia.
  - intros p Hp Hs Ht Hin. apply filter_In in Hin.
    destruct Hin as [_ Hk]. apply keepPhoto_iff in Hk.
    destruct Hk as [Hk|[t' [Ht' Hk]]]; congruence.
Qed.

Lemma cleanupSyncedPhotos_retention_witness :
  photos_of (snd (StorageService.cleanupSyncedPhotos
                    (Sample.env_at (Sample.day 8)) Sample.aged))
  = filter (StorageService.keepPhoto (Sample.day 8 - 7 * msPerDay))
           (photos_of Sample.aged).
Proof.
  refine (proj1 (proj2 (cleanupSyncedPhotos_retention
                          (Sample.env_at (Sample.day 8)) Sample.aged _ _)));
    reflexivity.
Defined.

(* ------------------------------------------------------------------ *)
(** * What a method leaves alone *)

Lemma progress_of_app tr1 tr2 :
  progress_of (tr1 ++ tr2) = (progress_of tr1 ++ progress_of tr2)%list.
Proof.
  induction tr1 as [|ev tr1 IH]; [reflexivity|].
  destruct ev; simpl; rewrite IH; reflexivity.
Qed.

Lemma quiet_ret {A} (a : A) : quiet (ret a).
Proof. intros w r w' H. inversion H; subst. auto. Qed.

Lemma quiet_throw {A} e : quiet (@throw A e).
Proof. intros w r w' H. inversion H; subst. auto. Qed.

Lemma quiet_bind {A B} (m : M A) (k : A -> M B) :
  quiet m -> (forall a, quiet (k a)) -> quiet (bind m k).
Proof.
  intros Hm Hk w r w'. unfold bind.
  destruct (m w) as [[a|e] w1] eqn:E; intros H.
  - destruct (Hm _ _ _ E) as (H1 & H2 & H3).
    destruct (Hk a _ _ _ H) as (H4 & H5 & H6).
    repeat split; try congruence. lia.
  - inversion H; subst. exact (Hm _ _ _ E).
Qed.

Lemma quiet_try_catch {A} (m : M A) (h : Error -> M A) :
  quiet m -> (forall e, quiet (h e)) -> quiet (try_catch m h).
Proof.
  intros Hm Hh w r w'. unfold try_catch.
  destruct (m w) as [[a|e] w1] eqn:E; intros H.
  - inversion H; subst. exact (Hm _ _ _ E).
  - destruct (Hm _ _ _ E) as (H1 & H2 & H3).
    destruct (Hh e _ _ _ H) as (H4 & H5 & H6).
    repeat split; try congruence. lia.
Qed.

Lemma quiet_Date_now env : quiet (Date_now env).
Proof.
  intros w r w' H. inversion H; subst. simpl. repeat split; lia.
Qed.

Lemma quiet_getItem env {A} k (read : Storage -> A) :
  quiet (getItem env k read).
Proof.
  intros w r w'. unfold getItem.
  destruct (getItem_fault env (tick w)); intros H; inversion H; subst; simpl;
    rewrite progress_of_app; simpl; rewrite app_nil_r;
    repeat split; lia.
Qed.

Lemma quiet_setItem env k write : quiet (setItem env k write).
Proof.
  intros w r w'. unfold setItem.
  destruct (setItem_fault env (tick w)); intros H; inversion H; subst; simpl;
    rewrite progress_of_app; simpl; rewrite app_nil_r;
    repeat split; lia.
Qed.

Lemma quiet_multiRemove env : quiet (multiRemove env).
Proof.
  intros w r w'. unfold multiRemove.
  destruct (multiRemove_fault env (tick w)); intros H; inversion H; subst;
    simpl; rewrite progress_of_app; simpl; rewrite app_nil_r;
    repeat split; lia.
Qed.

Lemma keeps_store_ret {A} (a : A) : keeps_store (ret a).
Proof. intros w r w' H. inversion H; subst. reflexivity. Qed.

Lemma keeps_store_throw {A} e : keeps_store (@throw A e).
Proof. intros w r w' H. inversion H; subst. reflexivity. Qed.

Lemma keeps_store_bind {A B} (m : M A) (k : A -> M B) :
  keeps_store m -> (forall a, keeps_store (k a)) -> keeps_store (bind m k).
Proof.
  intros Hm Hk w r w'. unfold bind.
  destruct (m w) as [[a|e] w1] eqn:E; intros H.
  - rewrite (Hk a _ _ _ H). exact (Hm _ _ _ E).
  - inversion H; subst. exact (Hm _ _ _ E).
Qed.

Lemma keeps_store_try_catch {A} (m : M A) (h : Error -> M A) :
  keeps_store m -> (forall e, keeps_store (h e)) ->
  keeps_store (try_catch m h).
Proof.
  intros Hm Hh w r w'. unfold try_catch.
  destruct (m w) as [[a|e] w1] eqn:E; intros H.
  - inversion H; subst. exact (Hm _ _ _ E).
  - rewrite (Hh e _ _ _ H). exact (Hm _ _ _ E).
Qed.

Lemma keeps_store_Date_now env : keeps_store (Date_now env).
Proof. intros w r w' H. inversion H; subst. reflexivity. Qed.

Lemma keeps_store_getItem env {A} k (read : Storage -> A) :
  keeps_store (getItem env k read).
Proof.
  intros w r w'. unfold getItem.
  destruct (getItem_fault env (tick w)); intros H; inversion H; reflexivity.
Qed.

Lemma never_rejects_ret {A} (a : A) : never_rejects (ret a).
Proof. intros w. exists a. reflexivity. Qed.

Lemma never_rejects_bind {A B} (m : M A) (k : A -> M B) :
  never_rejects m -> (forall a, never_rejects (k a)) ->
  never_rejects (bind m k).
Proof.
  intros Hm Hk w. unfold bind. destruct (Hm w) as [a Ha].
  destruct (m w) as [r w1]. simpl in Ha. subst r. apply Hk.
Qed.

Lemma never_rejects_try_catch {A} (m : M A) (h : Error -> M A) :
  (forall e, never_rejects (h e)) -> never_rejects (try_catch m h).
Proof.
  intros Hh w. unfold try_catch.
  destruct (m w) as [[a|e] w1]; [exists a; reflexivity | apply Hh].
Qed.

Lemma never_rejects_Date_now env : never_rejects (Date_now env).
Proof. intros w. eexists. reflexivity. Qed.

Create HintDb frame discriminated.

#[export] Hint Resolve quiet_ret quiet_throw quiet_Date_now quiet_getItem
  quiet_setItem quiet_multiRemove keeps_store_ret keeps_store_throw
  keeps_store_Date_now keeps_store_getItem never_rejects_ret
  never_rejects_Date_now : frame.

(** Walks through the binds and the handlers of a method. *)
Ltac frame :=
  repeat first
    [ progress intros
    | match goal with
      | |- quiet (bind _ _) => apply quiet_bind
      | |- quiet (try_catch _ _) => apply quiet_try_catch
      | |- keeps_store (bind _ _) => apply keeps_store_bind
      | |- keeps_store (try_catch _ _) => apply keeps_store_try_catch
      | |- never_rejects (try_catch _ _) => apply never_rejects_try_catch
      | |- never_rejects (bind _ _) => apply never_rejects_bind
      end
    | solve [auto with frame] ].

(* ------------------------------------------------------------------ *)
(** * Storage faults *)

Lemma lookup_photo_cons i p l :
  lookup_photo i (p :: l)
  = if String.eqb (id p) i then Some p else lookup_photo i l.
Proof. reflexivity. Qed.

(** The outcome of the [map] of [markPhotoAsSynced]: it cannot throw, it
    only reads the clock, and it marks exactly the entries whose id is
    [i]. *)
Lemma mark_matching_eq env i l : forall w,
  exists l' k,
    StorageService.mark_matching env i l w
    = (Ok l', mkWorld (storage w) (isSyncing w) (tick w + k) (trace w))
    /\ map id l' = map id l
    /\ (forall j, j <> i -> lookup_photo j l' = lookup_photo j l)
    /\ (forall p, lookup_photo i l = Some p ->
                  lookup_photo i l'
                  = Some (StorageService.mark (clock env (tick w)) p))
    /\ Forall2 (fun p p' =>
                  if String.eqb (id p) i
                  then exists t, tick w <= t
                                 /\ p' = StorageService.mark (clock env t) p
                  else p' = p) l l'.
Proof.
  induction l as [|p l IH]; intros w.
  - exists [], 0. simpl. rewrite Nat.add_0_r, world_eta.
    repeat split; auto. discriminate.
  - cbn [StorageService.mark_matching].
    destruct (String.eqb (id p) i) eqn:E.
    + unfold bind at 1. unfold Date_now at 1.
      set (w1 := mkWorld (storage w) (isSyncing w) (S (tick w)) (trace w)).
      destruct (IH w1) as (l' & k & Heq & Hids & Hother & _ & Hall).
      exists (StorageService.mark (clock env (tick w)) p :: l'), (S k).
      split.
      { unfold bind. rewrite Heq. unfold ret. subst w1. simpl.
        replace (tick w + S k) with (S (tick w + k)) by lia.
        reflexivity. }
      split; [simpl; f_equal; exact Hids|].
      split; [|split].
      * intros j Hj. rewrite !lookup_photo_cons.
        change (id (StorageService.mark (clock env (tick w)) p)) with (id p).
        destruct (String.eqb (id p) j) eqn:E'.
        -- apply String.eqb_eq in E, E'. congruence.
        -- apply Hother. exact Hj.
      * intros q Hq. rewrite lookup_photo_cons in Hq. rewrite E in Hq.
        inversion Hq; subst q. rewrite lookup_photo_cons.
        change (id (StorageService.mark (clock env (tick w)) p)) with (id p).
        rewrite E. reflexivity.
      * constructor.
        -- rewrite E. exists (tick w). split; [lia | reflexivity].
        -- eapply Forall2_impl; [|exact Hall]. simpl. intros a b.
           destruct (String.eqb (id a) i); [|auto].
           intros (t & Ht & Hb). exists t. split; [lia | exact Hb].
    + destruct (IH w) as (l' & k & Heq & Hids & Hother & Hsame & Hall).
      exists (p :: l'), k. unfold bind. rewrite Heq. unfold ret.
      split; [reflexivity|]. split; [simpl; f_equal; exact Hids|].
      split; [|split].
      * intros j Hj. rewrite !lookup_photo_cons.
        destruct (String.eqb (id p) j); [reflexivity | apply Hother, Hj].
      * intros q Hq. rewrite lookup_photo_cons in *. rewrite E in *.
        apply Hsame, Hq.
      * constructor; [rewrite E; reflexivity | exact Hall].
Qed.

Lemma saveOfflinePhoto_eq env cid pd w :
  StorageService.saveOfflinePhoto env cid pd w
  = let existingData := match getItem_fault env (tick w) with
                        | None => photos_of w
                        | Some _ => []
                        end in
    let newPhoto :=
      mkPhoto (string_of_Z (clock env (S (tick w)))) cid (pd_uri pd)
              (pd_fileName pd) (pd_latitude pd) (pd_longitude pd)
              (Some (clock env (S (S (tick w))))) false None in
    let tr := (trace w ++ [EvGetItem OFFLINE_PHOTOS]
                       ++ [EvSetItem OFFLINE_PHOTOS])%list in
    match setItem_fault env (S (S (S (tick w)))) with
    | Some e => (Throw e, mkWorld (storage w) (isSyncing w) (4 + tick w) tr)
    | None =>
        (Ok newPhoto,
         mkWorld (write_photos (existingData ++ [newPhoto])%list (storage w))
                 (isSyncing w) (4 + tick w) tr)
    end.
Proof.
  unfold StorageService.saveOfflinePhoto, try_catch.
  unfold bind at 1. rewrite getOfflinePhotos_eq.
  unfold bind, Date_now, setItem, outside, set_storage, ret, throw. simpl.
  destruct (setItem_fault env (S (S (S (tick w))))); simpl;
    rewrite <- app_assoc; reflexivity.
Qed.

(** [markPhotoAsSynced] either resolves, or rejects with the error of the
    failed write and leaves the store as it was. *)
Lemma markPhotoAsSynced_cases env i w :
  exists l' k,
    StorageService.mark_matching env i
      (match getItem_fault env (tick w) with
       | None => photos_of w
       | Some _ => []
       end)
      (outside (EvGetItem OFFLINE_PHOTOS) w)
    = (Ok l', mkWorld (storage w) (isSyncing w) (S (tick w) + k)
                      (trace w ++ [EvGetItem OFFLINE_PHOTOS])%list)
    /\ StorageService.markPhotoAsSynced env i w
       = match setItem_fault env (S (tick w) + k) with
         | Some e =>
             (Throw e,
              mkWorld (storage w) (isSyncing w) (S (S (tick w) + k))
                      (trace w ++ [EvGetItem OFFLINE_PHOTOS]
                               ++ [EvSetItem OFFLINE_PHOTOS])%list)
         | None =>
             (Ok tt,
              mkWorld (write_photos l' (storage w)) (isSyncing w)
                      (S (S (tick w) + k))
                      (trace w ++ [EvGetItem OFFLINE_PHOTOS]
                               ++ [EvSetItem OFFLINE_PHOTOS])%list)
         end.
Proof.
  destruct (mark_matching_eq env i
              (match getItem_fault env (tick w) with
               | None => photos_of w
               | Some _ => []
               end)
              (outside (EvGetItem OFFLINE_PHOTOS) w))
    as (l' & k & Heq & _).
  exists l', k. split; [exact Heq|].
  unfold StorageService.markPhotoAsSynced, try_catch.
  unfold bind at 1. rewrite getOfflinePhotos_eq.
  unfold bind. rewrite Heq.
  unfold setItem, outside, set_storage, throw. simpl.
  destruct (setItem_fault env (S (tick w + k))); simpl;
    rewrite <- app_assoc; reflexivity.
Qed.

Lemma storage_reads_never_reject env :
  never_rejects (StorageService.getOfflinePhotos env)
  /\ (forall cid, never_rejects
                    (StorageService.getOfflinePhotosByComplaint env cid))
  /\ never_rejects (StorageService.getUnsyncedPhotos env)
  /\ never_rejects (StorageService.getSyncedComplaints env)
  /\ (forall cid, never_rejects (StorageService.getComplaintById env cid))
  /\ never_rejects (StorageService.getLastSync env).
Proof.
  repeat split; intros; apply never_rejects_try_catch; intros;
    apply never_rejects_ret.
Qed.

Lemma storage_swallowing_writes_never_reject env :
  never_rejects (StorageService.cleanupSyncedPhotos env)
  /\ (forall c, never_rejects (StorageService.saveSyncedComplaint env c))
  /\ never_rejects (StorageService.updateLastSync env)
  /\ never_rejects (StorageService.clearAll env).
Proof.
  repeat split; intros; apply never_rejects_try_catch; intros;
    apply never_rejects_ret.
Qed.



(* ------------------------------------------------------------------ *)
(** * The cache of complaints *)

Lemma upsert_cons c x l :
  StorageService.upsert c (x :: l)
  = if StorageService.same_id (complaint_id c) x then c :: l
    else x :: StorageService.upsert c l.
Proof.
  unfold StorageService.upsert. simpl.
  destruct (StorageService.same_id (complaint_id c) x); [reflexivity|].
  destruct (StorageService.findIndex _ l); reflexivity.
Qed.

Lemma same_id_refl c : StorageService.same_id (complaint_id c) c = true.
Proof. unfold StorageService.same_id. apply String.eqb_refl. Qed.

(** Insert, then look up: the snapshot is found under its own id. *)
Lemma find_upsert_same c l :
  find (StorageService.same_id (complaint_id c)) (StorageService.upsert c l)
  = Some c.
Proof.
  induction l as [|x l IH].
  - simpl. rewrite same_id_refl. reflexivity.
  - rewrite upsert_cons.
    destruct (StorageService.same_id (complaint_id c) x) eqn:E; simpl.
    + rewrite same_id_refl. reflexivity.
    + rewrite E. exact IH.
Qed.

(** The snapshots stored under the other ids are not touched. *)
Lemma find_upsert_other c l k :
  k <> complaint_id c ->
  find (StorageService.same_id k) (StorageService.upsert c l)
  = find (StorageService.same_id k) l.
Proof.
  intros Hk.
  assert (Hc : StorageService.same_id k c = false).
  { unfold StorageService.same_id. apply String.eqb_neq. congruence. }
  induction l as [|x l IH].
  - simpl. rewrite Hc. reflexivity.
  - rewrite upsert_cons.
    destruct (StorageService.same_id (complaint_id c) x) eqn:E; simpl.
    + rewrite Hc.
      assert (Hx : StorageService.same_id k x = false).
      { unfold StorageService.same_id in *. apply String.eqb_eq in E.
        apply String.eqb_neq. congruence. }
      rewrite Hx. reflexivity.
    + destruct (StorageService.same_id k x); [reflexivity | exact IH].
Qed.

Lemma saveSyncedComplaint_eq env c w :
  getItem_fault env (tick w) = None ->
  setItem_fault env (S (tick w)) = None ->
  StorageService.saveSyncedComplaint env c w
  = (Ok tt,
     mkWorld (write_complaints (StorageService.upsert c (complaints_of w))
                               (storage w))
             (isSyncing w) (S (S (tick w)))
             (trace w ++ [EvGetItem SYNCED_COMPLAINTS]
                     ++ [EvSetItem SYNCED_COMPLAINTS])%list).
Proof.
  intros Hr Hw.
  unfold StorageService.saveSyncedComplaint, try_catch.
  unfold bind at 1. rewrite getSyncedComplaints_eq, Hr.
  unfold setItem, outside, set_storage. simpl. rewrite Hw.
  rewrite <- app_assoc. reflexivity.
Qed.

Lemma storage_getComplaintById_eq env cid w :
  StorageService.getComplaintById env cid w
  = (Ok (match getItem_fault env (tick w) with
         | None => find (StorageService.same_id cid) (complaints_of w)
         | Some _ => None
         end),
     outside (EvGetItem SYNCED_COMPLAINTS) w).
Proof.
  unfold StorageService.getComplaintById, try_catch, bind.
  rewrite getSyncedComplaints_eq.
  destruct (getItem_fault env (tick w)); reflexivity.
Qed.

(** The two branches of [ComplaintService.getComplaintById] when the store
    works. *)
Lemma getComplaintById_cases env cid w :
  getItem_fault env (S (tick w)) = None ->
  setItem_fault env (S (S (tick w))) = None ->
  ComplaintService.getComplaintById env cid w
  = match api_by_complaint_id env cid (tick w) with
    | Ok data =>
        (Ok (mkFetchResult true (Some data) None false),
         mkWorld (write_complaints
                    (StorageService.upsert data (complaints_of w))
                    (storage w))
                 (isSyncing w) (S (S (S (tick w))))
                 ((trace w ++ [EvApiGet (by_id_url cid)])
                    ++ [EvGetItem SYNCED_COMPLAINTS]
                    ++ [EvSetItem SYNCED_COMPLAINTS])%list)
    | Throw error =>
        (Ok (match find (StorageService.same_id cid) (complaints_of w) with
             | Some c => mkFetchResult true (Some c) None true
             | None =>
                 mkFetchResult false None
                   (Some (ComplaintService.detail_or error
                            "Complaint not found")) true
             end),
         mkWorld (storage w) (isSyncing w) (S (S (tick w)))
                 ((trace w ++ [EvApiGet (by_id_url cid)])
                    ++ [EvGetItem SYNCED_COMPLAINTS])%list)
    end.
Proof.
  intros Hr Hw.
  unfold ComplaintService.getComplaintById, try_catch.
  unfold bind at 1. unfold ComplaintService.api_get_by_complaint_id.
  destruct (api_by_complaint_id env cid (tick w)) as [data|error].
  - unfold bind. rewrite saveSyncedComplaint_eq by assumption.
    reflexivity.
  - unfold bind. rewrite storage_getComplaintById_eq. simpl. rewrite Hr.
    unfold complaints_of. simpl.
    destruct (find _ _); reflexivity.
Qed.



Lemma searchComplaints_eq env query w :
  ComplaintService.searchComplaints env query w
  = (Ok (match api_search env query (tick w) with
         | Ok data => mkFetchResult true (Some data) None false
         | Throw error =>
             mkFetchResult false None
               (Some (ComplaintService.detail_or error "Search failed"))
               false
         end),
     outside (EvApiGet "/api/complaints/search/") w).
Proof.
  unfold ComplaintService.searchComplaints, try_catch, bind,
    ComplaintService.api_get_search.
  destruct (api_search env query (tick w)); reflexivity.
Qed.

Lemma saveEach_eq env l : forall w,
  no_storage_faults env ->
  exists w',
    ComplaintService.saveEach env l w = (Ok tt, w')
    /\ complaints_of w' = upsert_all l (complaints_of w)
    /\ offline_photos (storage w') = offline_photos (storage w)
    /\ last_sync (storage w') = last_sync (storage w)
    /\ isSyncing w' = isSyncing w.
Proof.
  induction l as [|c l IH]; intros w Hok.
  - exists w. repeat split.
  - destruct Hok as [Hr Hw]. simpl. unfold bind.
    rewrite saveSyncedComplaint_eq by auto.
    edestruct IH as (w' & Heq & Hc & Hp & Hl & Hs); [split; eassumption|].
    exists w'. rewrite Heq. split; [reflexivity|].
    rewrite Hc, Hp, Hl, Hs. repeat split.
Qed.

Lemma getAllComplaints_cases env w :
  no_storage_faults env ->
  let r := fst (ComplaintService.getAllComplaints env w) in
  let w' := snd (ComplaintService.getAllComplaints env w) in
  match api_complaints env (tick w) with
  | Ok data =>
      r = Ok (mkFetchResult true (Some data) None false)
      /\ complaints_of w'
         = match results data with
           | Some l => upsert_all l (complaints_of w)
           | None => complaints_of w
           end
  | Throw error =>
      storage w' = storage w
      /\ r = Ok (match complaints_of w with
                 | [] => mkFetchResult false None
                           (Some (ComplaintService.detail_or error
                                    "Failed to fetch complaints")) false
                 | _ :: _ =>
                     mkFetchResult true
                       (Some (mkListing (Some (complaints_of w)))) None true
                 end)
  end.
Proof.
  intros Hok r w'. subst r w'.
  destruct (ComplaintService.getAllComplaints env w) as [r w'] eqn:E.
  unfold ComplaintService.getAllComplaints, try_catch in E.
  unfold bind at 1 in E. unfold ComplaintService.api_get_complaints in E.
  cbv beta in E. simpl fst. simpl snd.
  destruct (api_complaints env (tick w)) as [data|error].
  - unfold bind at 1 in E. destruct (results data) as [l|].
    + destruct (saveEach_eq env l
                  (outside (EvApiGet "/api/complaints/") w) Hok)
        as (w1 & Heq & Hc & _).
      rewrite Heq in E. inversion E; subst. split; [reflexivity | exact Hc].
    + inversion E; subst. split; reflexivity.
  - unfold bind in E. rewrite getSyncedComplaints_eq in E.
    destruct Hok as [Hr _]. rewrite Hr in E.
    change (complaints_of (outside (EvApiGet "/api/complaints/") w))
      with (complaints_of w) in E.
    destruct (complaints_of w); inversion E; subst; split; reflexivity.
Qed.

(** C8, the claim as worded fails for the search: when the request fails
    [searchComplaints] reports a failure although the store holds a
    snapshot (the listing, in the same state, serves the store), and when
    the request succeeds it stores nothing. *)
Lemma searchComplaints_is_not_cached :
  fst (ComplaintService.searchComplaints Sample.env_away "pothole"
         Sample.cached)
  = Ok (mkFetchResult false None (Some "Search failed") false)
  /\ fst (ComplaintService.getAllComplaints Sample.env_away Sample.cached)
     = Ok (mkFetchResult true (Some (mkListing (Some [Sample.road])))
             None true)
  /\ fst (ComplaintService.searchComplaints Sample.env "pothole"
            Sample.fresh)
     = Ok (mkFetchResult true (Some [Sample.road]) None false)
  /\ complaints_of
       (snd (ComplaintService.searchComplaints Sample.env "pothole"
               Sample.fresh))
     = [].
Proof. repeat split. Qed.

(** C8, amended: with a working store the cache wraps the lookup of one
    complaint and the listing, not the search.  The lookup stores the
    payload on success and serves the stored snapshot, flagged offline, on
    failure.  The listing on success upserts each element of [results], one
    after the other, and on failure serves all stored snapshots, flagged
    offline, when there is at least one.  The search never writes to the
    store and never reads it: on failure it reports the failure. *)
Theorem cache_wraps_lookup_and_listing env w :
  no_storage_faults env ->
  (forall cid,
      match api_by_complaint_id env cid (tick w) with
      | Ok data =>
          fst (ComplaintService.getComplaintById env cid w)
          = Ok (mkFetchResult true (Some data) None false)
          /\ complaints_of (snd (ComplaintService.getComplaintById env cid w))
             = StorageService.upsert data (complaints_of w)
      | Throw _ =>
          forall c,
            find (StorageService.same_id cid) (complaints_of w) = Some c ->
            fst (ComplaintService.getComplaintById env cid w)
            = Ok (mkFetchResult true (Some c) None true)
      end)
  /\ match api_complaints env (tick w) with
     | Ok data =>
         fst (ComplaintService.getAllComplaints env w)
         = Ok (mkFetchResult true (Some data) None false)
         /\ complaints_of (snd (ComplaintService.getAllComplaints env w))
            = match results data with
              | Some l => upsert_all l (complaints_of w)
              | None => complaints_of w
              end
     | Throw _ =>
         complaints_of w <> [] ->
         fst (ComplaintService.getAllComplaints env w)
         = Ok (mkFetchResult true
                 (Some (mkListing (Some (complaints_of w)))) None true)
     end
  /\ (forall query,
        storage (snd (ComplaintService.searchComplaints env query w))
        = storage w
        /\ trace (snd (ComplaintService.searchComplaints env query w))
           = (trace w ++ [EvApiGet "/api/complaints/search/"])%list
        /\ match api_search env query (tick w) with
           | Ok data =>
               fst (ComplaintService.searchComplaints env query w)
               = Ok (mkFetchResult true (Some data) None false)
           | Throw error =>
               fst (ComplaintService.searchComplaints env query w)
               = Ok (mkFetchResult false None
                       (Some (ComplaintService.detail_or error
                                "Search failed")) false)
           end).
Proof.
  intros Hok. split; [|split].
  - intros cid. destruct Hok as [Hr Hw].
    rewrite (getComplaintById_cases env cid w (Hr _) (Hw _)).
    destruct (api_by_complaint_id env cid (tick w)); simpl.
    + split; reflexivity.
    + intros c Hc. rewrite Hc. reflexivity.
  - pose proof (getAllComplaints_cases env w Hok) as H. simpl in H.
    destruct (api_complaints env (tick w)).
    + exact H.
    + destruct H as [_ H]. intros Hne. rewrite H.
      destruct (complaints_of w); [contradiction | reflexivity].
  - intros query. rewrite searchComplaints_eq. simpl.
    split; [reflexivity|]. split; [reflexivity|].
    destruct (api_search env query (tick w)); reflexivity.
Qed.

Lemma cache_wraps_lookup_and_listing_witness :
  fst (ComplaintService.getAllComplaints Sample.env Sample.cached)
  = Ok (mkFetchResult true
          (Some (mkListing (Some [Sample.road; Sample.lamp]))) None false)
  /\ complaints_of (snd (ComplaintService.getAllComplaints Sample.env
                           Sample.cached))
     = upsert_all [Sample.road; Sample.lamp] (complaints_of Sample.cached).
Proof.
  refine (proj1 (proj2 (cache_wraps_lookup_and_listing Sample.env
                          Sample.cached _))).
  split; reflexivity.
Defined.

(* ------------------------------------------------------------------ *)
(** * One pass of the orchestrator *)

Lemma quiet_api_get_complaints env : quiet (SyncService.api_get_complaints env).
Proof.
  intros w r w' H. inversion H; subst. simpl.
  rewrite progress_of_app, app_nil_r. repeat split. lia.
Qed.

Lemma quiet_api_post_upload_photo env fd :
  quiet (SyncService.api_post_upload_photo env fd).
Proof.
  intros w r w' H. inversion H; subst. simpl.
  rewrite progress_of_app, app_nil_r. repeat split. lia.
Qed.

Lemma keeps_store_api_get_complaints env :
  keeps_store (SyncService.api_get_complaints env).
Proof. intros w r w' H. inversion H; subst. reflexivity. Qed.

Lemma keeps_store_api_post_upload_photo env fd :
  keeps_store (SyncService.api_post_upload_photo env fd).
Proof. intros w r w' H. inversion H; subst. reflexivity. Qed.

#[export] Hint Resolve quiet_api_get_complaints quiet_api_post_upload_photo
  keeps_store_api_get_complaints keeps_store_api_post_upload_photo : frame.

(** [uploadPhoto] talks to the server only. *)
Lemma uploadPhoto_frame env url p :
  quiet (SyncService.uploadPhoto env url p)
  /\ keeps_store (SyncService.uploadPhoto env url p).
Proof.
  unfold SyncService.uploadPhoto. split.
  - frame. destruct (fileName p); [destruct (SyncService.truthy_string _)|];
      frame.
  - frame. destruct (fileName p); [destruct (SyncService.truthy_string _)|];
      frame.
Qed.

Lemma quiet_mark_matching env i l : quiet (StorageService.mark_matching env i l).
Proof.
  induction l as [|p l IH]; simpl; [frame|].
  destruct (String.eqb (id p) i); frame.
Qed.

Lemma quiet_getOfflinePhotos env : quiet (StorageService.getOfflinePhotos env).
Proof. unfold StorageService.getOfflinePhotos. frame. Qed.

Lemma quiet_markPhotoAsSynced env i :
  quiet (StorageService.markPhotoAsSynced env i).
Proof.
  unfold StorageService.markPhotoAsSynced. frame.
  - apply quiet_getOfflinePhotos.
  - apply quiet_mark_matching.
Qed.

Lemma quiet_updateLastSync env : quiet (StorageService.updateLastSync env).
Proof. unfold StorageService.updateLastSync. frame. Qed.

Lemma quiet_cleanupSyncedPhotos env :
  quiet (StorageService.cleanupSyncedPhotos env).
Proof.
  unfold StorageService.cleanupSyncedPhotos. frame.
  apply quiet_getOfflinePhotos.
Qed.

Lemma attempt_frame env url p :
  quiet (attempt env url p) /\ never_rejects (attempt env url p).
Proof.
  unfold attempt. split.
  - frame.
    + apply uploadPhoto_frame.
    + apply quiet_markPhotoAsSynced.
  - frame.
Qed.

Lemma callback_eq cb ev w :
  never_throws cb ->
  SyncService.callback cb ev w
  = (Ok tt,
     match cb with
     | Some _ => mkWorld (storage w) (isSyncing w) (tick w)
                         (trace w ++ [EvProgress ev])%list
     | None => w
     end).
Proof.
  intros H. destruct cb as [f|]; simpl in *; [|reflexivity].
  rewrite H. reflexivity.
Qed.

Lemma syncLoop_cons env url cb n i p rest s f w :
  never_throws cb ->
  SyncService.syncLoop env url cb n i (p :: rest) s f w
  = let w0 := match cb with
              | Some _ => mkWorld (storage w) (isSyncing w) (tick w)
                            (trace w ++ [EvProgress (mkProgress (i + 1) n p)])%list
              | None => w
              end in
    match attempt env url p w0 with
    | (Ok true, w1) =>
        SyncService.syncLoop env url cb n (S i) rest (S s) f w1
    | (Ok false, w1) =>
        SyncService.syncLoop env url cb n (S i) rest s (S f) w1
    | (Throw e, w1) => (Throw e, w1)
    end.
Proof.
  intros H. cbn [SyncService.syncLoop]. unfold bind at 1.
  rewrite (callback_eq cb _ w H). cbv zeta. unfold bind at 1.
  fold (attempt env url p).
  destruct (attempt env url p _) as [[[|]|e] w1]; reflexivity.
Qed.

(** The loop always runs to its end when the callback does not throw: it
    reports each element once, in order, and counts each element once. *)
Lemma syncLoop_runs env url cb n rest : forall i s f w,
  never_throws cb ->
  exists s' f' w',
    SyncService.syncLoop env url cb n i rest s f w = (Ok (s', f'), w')
    /\ isSyncing w' = isSyncing w
    /\ tick w <= tick w'
    /\ progress_of (trace w')
       = (progress_of (trace w)
            ++ match cb with
               | Some _ => progress_from n i rest
               | None => []
               end)%list
    /\ s <= s' /\ f <= f'
    /\ s' + f' = s + f + List.length rest.
Proof.
  induction rest as [|p rest IH]; intros i s f w Hcb.
  - exists s, f, w. simpl. destruct cb; rewrite app_nil_r;
      repeat split; lia.
  - rewrite syncLoop_cons by exact Hcb. cbv zeta.
    set (w0 := match cb with Some _ => _ | None => w end).
    assert (H0 : isSyncing w0 = isSyncing w /\ tick w0 = tick w
                 /\ progress_of (trace w0)
                    = (progress_of (trace w)
                         ++ match cb with
                            | Some _ => [mkProgress (i + 1) n p]
                            | None => []
                            end)%list).
    { subst w0. destruct cb; simpl.
      - rewrite progress_of_app. repeat split.
      - rewrite app_nil_r. repeat split. }
    destruct H0 as (Ha & Hb & Hc).
    destruct (attempt_frame env url p) as [Hq Hn].
    destruct (Hn w0) as [b Hb'].
    destruct (attempt env url p w0) as [r w1] eqn:E.
    simpl in Hb'. subst r.
    destruct (Hq _ _ _ E) as (H1 & H2 & H3).
    destruct b.
    + destruct (IH (S i) (S s) f w1 Hcb)
        as (s' & f' & w' & Heq & I1 & I2 & I3 & I4 & I5 & I6).
      exists s', f', w'. rewrite Heq. split; [reflexivity|].
      split; [congruence|]. split; [lia|].
      split; [rewrite I3, H2, Hc; destruct cb; simpl;
              rewrite <- app_assoc; reflexivity|].
      simpl. repeat split; lia.
    + destruct (IH (S i) s (S f) w1 Hcb)
        as (s' & f' & w' & Heq & I1 & I2 & I3 & I4 & I5 & I6).
      exists s', f', w'. rewrite Heq. split; [reflexivity|].
      split; [congruence|]. split; [lia|].
      split; [rewrite I3, H2, Hc; destruct cb; simpl;
              rewrite <- app_assoc; reflexivity|].
      simpl. repeat split; lia.
Qed.

Lemma updateLastSync_eq env w :
  StorageService.updateLastSync env w
  = (Ok tt,
     mkWorld (match setItem_fault env (S (tick w)) with
              | None => write_last_sync (clock env (tick w)) (storage w)
              | Some _ => storage w
              end)
             (isSyncing w) (S (S (tick w)))
             (trace w ++ [EvSetItem LAST_SYNC])%list).
Proof.
  unfold StorageService.updateLastSync, try_catch, bind, Date_now, setItem,
    outside, set_storage, ret.
  simpl. destruct (setItem_fault env (S (tick w))); reflexivity.
Qed.

Lemma after_loop_eq env (res : SyncResult) w :
  (StorageService.updateLastSync env ;;;
   StorageService.cleanupSyncedPhotos env ;;;
   ret res) w
  = (Ok res, after_loop env w).
Proof.
  unfold after_loop, bind. rewrite updateLastSync_eq. simpl.
  destruct (storage_swallowing_writes_never_reject env) as (Hc & _).
  match goal with
  | |- context [StorageService.cleanupSyncedPhotos env ?w1] =>
      destruct (Hc w1) as [[] H];
      destruct (StorageService.cleanupSyncedPhotos env w1) as [r w2]
  end.
  simpl in H. subst r. reflexivity.
Qed.

(** The shape of a pass that gets past the guard and the WiFi check. *)
Lemma syncPhotos_pass env url cb w :
  isSyncing w = false ->
  wifi_at env (tick w) = true ->
  SyncService.syncPhotos env url cb w
  = match snapshot_of env w with
    | [] =>
        (Ok (mkSyncResult true "No photos to sync" (Some 0) None None),
         set_isSyncing false (loop_start w))
    | _ :: _ =>
        match SyncService.syncLoop env url cb
                (List.length (snapshot_of env w)) 0 (snapshot_of env w) 0 0
                (loop_start w) with
        | (Ok counts, wl) =>
            (Ok (mkSyncResult true
                   (SyncService.synced_message (fst counts) (snd counts))
                   None (Some (fst counts)) (Some (snd counts))),
             set_isSyncing false (after_loop env wl))
        | (Throw error, wl) =>
            (Ok (SyncService.rejected (err_message error)),
             set_isSyncing false wl)
        end
    end.
Proof.
  intros Hidle Hwifi.
  unfold SyncService.syncPhotos. rewrite Hidle.
  unfold try_finally, try_catch, SyncService.syncPhotos_try.
  unfold bind at 1. cbv beta iota.
  unfold bind at 1. rewrite isConnectedToWiFi_eq.
  change (tick (set_isSyncing true w)) with (tick w).
  rewrite Hwifi. cbv beta iota. change (negb true) with false. cbv iota.
  unfold bind at 1. rewrite getUnsyncedPhotos_eq.
  change (tick (outside EvNetwork (set_isSyncing true w))) with (S (tick w)).
  change (photos_of (outside EvNetwork (set_isSyncing true w)))
    with (photos_of w).
  fold (snapshot_of env w). fold (loop_start w). cbv beta iota.
  destruct (snapshot_of env w) as [|p l] eqn:E; [reflexivity|].
  change (Nat.eqb (List.length (p :: l)) 0) with false. cbv iota.
  unfold bind at 1.
  destruct (SyncService.syncLoop env url cb _ 0 (p :: l) 0 0 (loop_start w))
    as [[counts|error] wl]; [|reflexivity].
  rewrite after_loop_eq. reflexivity.
Qed.

Lemma cleanupSyncedPhotos_world env w :
  StorageService.cleanupSyncedPhotos env w
  = (Ok tt,
     mkWorld
       (match setItem_fault env (S (S (tick w))) with
        | None =>
            write_photos
              (filter (StorageService.keepPhoto
                         (clock env (S (tick w)) - 7 * msPerDay))
                      (match getItem_fault env (tick w) with
                       | None => photos_of w
                       | Some _ => []
                       end))
              (storage w)
        | Some _ => storage w
        end)
       (isSyncing w) (S (S (S (tick w))))
       (trace w ++ [EvGetItem OFFLINE_PHOTOS; EvSetItem OFFLINE_PHOTOS])%list).
Proof.
  unfold StorageService.cleanupSyncedPhotos, try_catch.
  unfold bind at 1. rewrite getOfflinePhotos_eq.
  unfold bind, Date_now, setItem, outside, set_storage, ret. simpl.
  destruct (setItem_fault env (S (S (tick w)))); simpl;
    rewrite <- app_assoc; reflexivity.
Qed.

(** What the two statements after the loop do to the world, faults
    included: both calls are always made. *)
Lemma after_loop_world env w :
  after_loop env w
  = let s1 := match setItem_fault env (S (tick w)) with
              | None => write_last_sync (clock env (tick w)) (storage w)
              | Some _ => storage w
              end in
    mkWorld
      (match setItem_fault env (4 + tick w) with
       | None =>
           write_photos
             (filter (StorageService.keepPhoto
                        (clock env (3 + tick w) - 7 * msPerDay))
                     (match getItem_fault env (2 + tick w) with
                      | None => photos_of w
                      | Some _ => []
                      end))
             s1
       | Some _ => s1
       end)
      (isSyncing w) (5 + tick w)
      (trace w ++ [EvSetItem LAST_SYNC; EvGetItem OFFLINE_PHOTOS;
                   EvSetItem OFFLINE_PHOTOS])%list.
Proof.
  unfold after_loop. rewrite updateLastSync_eq. cbn [snd].
  rewrite cleanupSyncedPhotos_world. cbn [snd tick trace storage isSyncing].
  cbv zeta. f_equal.
  - unfold photos_of. cbn [storage].
    destruct (setItem_fault env (S (tick w))); reflexivity.
  - rewrite <- app_assoc. reflexivity.
Qed.

(** C4, the claim as worded fails for an empty queue: the pass returns
    before the loop, with [count] and without [successCount] and
    [failCount]; the cursor is not written and the cleanup does not run. *)
Lemma syncPhotos_empty_queue_returns_early :
  fst (SyncService.syncPhotos Sample.env Sample.url None Sample.fresh)
  = Ok (mkSyncResult true "No photos to sync" (Some 0) None None)
  /\ last_sync (storage (snd (SyncService.syncPhotos Sample.env Sample.url
                                None Sample.fresh)))
     = None
  /\ trace (snd (SyncService.syncPhotos Sample.env Sample.url None
                   Sample.fresh))
     = [EvNetwork; EvGetItem OFFLINE_PHOTOS].
Proof. repeat split. Qed.

(** C4, amended: in a pass that gets past the guard and the WiFi check,
    with a callback that does not throw.  When the list of unsynced photos
    is not empty, the loop runs to its end whatever the outcome of each
    item, then [updateLastSync] and [cleanupSyncedPhotos] are called, in
    this order; the result has [successCount] and [failCount], which add up
    to the length of the list; the cursor holds the time read after the
    loop unless its write failed, and the collection is the one the loop
    left, filtered by the retention rule, unless the store failed.  When
    the list is empty the result is "No photos to sync" with count 0 and
    without the two counters, and the store is not touched. *)
Theorem syncPhotos_after_the_loop env url cb w :
  isSyncing w = false ->
  wifi_at env (tick w) = true ->
  never_throws cb ->
  let r := fst (SyncService.syncPhotos env url cb w) in
  let w' := snd (SyncService.syncPhotos env url cb w) in
  match snapshot_of env w with
  | [] =>
      r = Ok (mkSyncResult true "No photos to sync" (Some 0) None None)
      /\ storage w' = storage w
      /\ trace w' = (trace w ++ [EvNetwork; EvGetItem OFFLINE_PHOTOS])%list
  | _ :: _ =>
      exists s f wl,
        SyncService.syncLoop env url cb (List.length (snapshot_of env w)) 0
          (snapshot_of env w) 0 0 (loop_start w) = (Ok (s, f), wl)
        /\ r = Ok (mkSyncResult true (SyncService.synced_message s f) None
                     (Some s) (Some f))
        /\ s + f = List.length (snapshot_of env w)
        /\ trace w'
           = (trace wl ++ [EvSetItem LAST_SYNC; EvGetItem OFFLINE_PHOTOS;
                           EvSetItem OFFLINE_PHOTOS])%list
        /\ (setItem_fault env (S (tick wl)) = None ->
            last_sync (storage w') = Some (clock env (tick wl)))
        /\ (getItem_fault env (2 + tick wl) = None ->
            setItem_fault env (4 + tick wl) = None ->
            photos_of w'
            = filter (StorageService.keepPhoto
                        (clock env (3 + tick wl) - 7 * msPerDay))
                     (photos_of wl))
  end.
Proof.
  intros Hidle Hwifi Hcb r w'. subst r w'.
  rewrite (syncPhotos_pass env url cb w Hidle Hwifi).
  destruct (snapshot_of env w) as [|p l] eqn:E.
  - cbn [fst snd]. split; [reflexivity|]. split; [reflexivity|].
    simpl. rewrite <- app_assoc. reflexivity.
  - destruct (syncLoop_runs env url cb (List.length (p :: l)) (p :: l)
                0 0 0 (loop_start w) Hcb)
      as (s & f & wl & Heq & _ & _ & _ & _ & _ & Hsum).
    rewrite Heq. cbn [fst snd]. exists s, f, wl.
    split; [reflexivity|]. split; [reflexivity|].
    split; [exact Hsum|].
    rewrite after_loop_world. cbv zeta. cbn [set_isSyncing trace storage].
    split; [reflexivity|]. split.
    + intros H1. rewrite H1.
      destruct (setItem_fault env (4 + tick wl)); reflexivity.
    + intros H2 H4. rewrite H2, H4. reflexivity.
Qed.

Lemma syncPhotos_after_the_loop_witness :
  exists s f,
    fst (SyncService.syncPhotos Sample.env Sample.url
           (Some (fun _ => Ok tt)) Sample.idle)
    = Ok (mkSyncResult true (SyncService.synced_message s f) None
            (Some s) (Some f))
    /\ s + f = 3.
Proof.
  assert (H := syncPhotos_after_the_loop Sample.env Sample.url
                 (Some (fun _ => Ok tt)) Sample.idle).
  hnf in H.
  destruct H as (s & f & wl & _ & H2 & H3 & _);
    [reflexivity | reflexivity | intros ev; reflexivity |].
  exists s, f. split; [exact H2 | exact H3].
Defined.






(* ------------------------------------------------------------------ *)
(** * Accounting of a pass *)

Lemma photos_of_write l s b t tr :
  photos_of (mkWorld (write_photos l s) b t tr) = l.
Proof. reflexivity. Qed.

(** One item of the loop when the store can be read: either the photo is
    marked, and nothing else changes in the collection, or the store is
    left as it was. *)
Lemma attempt_cases env url p w :
  (forall t, getItem_fault env t = None) ->
  exists b w1,
    attempt env url p w = (Ok b, w1)
    /\ tick w <= tick w1
    /\ if b
       then exists t,
              tick w <= t /\ t <= tick w1
              /\ (forall q, lookup_photo (id p) (photos_of w) = Some q ->
                    lookup_photo (id p) (photos_of w1)
                    = Some (StorageService.mark (clock env t) q))
              /\ (forall j, j <> id p ->
                    lookup_photo j (photos_of w1)
                    = lookup_photo j (photos_of w))
       else storage w1 = storage w.
Proof.
  intros Hr. unfold attempt, try_catch. unfold bind at 1.
  destruct (uploadPhoto_frame env url p) as [Hq Hk].
  destruct (SyncService.uploadPhoto env url p w) as [[[]|e] wu] eqn:Eu.
  - destruct (Hq _ _ _ Eu) as (_ & _ & Htick).
    pose proof (Hk _ _ _ Eu) as Hst.
    unfold bind at 1.
    destruct (markPhotoAsSynced_cases env (id p) wu) as (l' & k & Hm & Heq).
    rewrite Heq. rewrite Hr in Hm.
    destruct (mark_matching_eq env (id p) (photos_of wu)
                (outside (EvGetItem OFFLINE_PHOTOS) wu))
      as (l2 & k2 & Hm2 & _ & Hother & Hsame & _).
    rewrite Hm in Hm2. inversion Hm2; subst l2. clear Hm2.
    destruct (setItem_fault env (S (tick wu) + k)).
    + eexists false, _. split; [reflexivity|].
      cbn [tick storage]. split; [lia | exact Hst].
    + eexists true, _. split; [reflexivity|].
      cbn [tick]. split; [lia|].
      exists (S (tick wu)). split; [lia|]. split; [lia|].
      rewrite !photos_of_write.
      assert (Hp : photos_of wu = photos_of w)
        by (unfold photos_of; rewrite Hst; reflexivity).
      rewrite <- Hp. split.
      * intros q Hq'. apply (Hsame q Hq').
      * intros j Hj. apply Hother. exact Hj.
  - destruct (Hq _ _ _ Eu) as (_ & _ & Htick).
    pose proof (Hk _ _ _ Eu) as Hst.
    eexists false, _. split; [reflexivity|].
    split; [exact Htick | exact Hst].
Qed.

Lemma lookup_photo_In i l q :
  lookup_photo i l = Some q -> In q l /\ id q = i.
Proof.
  unfold lookup_photo. intros H. apply find_some in H.
  destruct H as [H1 H2]. apply String.eqb_eq in H2. auto.
Qed.

Lemma lookup_photo_NoDup l : forall p,
  NoDup (map id l) -> In p l -> lookup_photo (id p) l = Some p.
Proof.
  induction l as [|x l IH]; intros p Hnd Hin; [contradiction|].
  rewrite lookup_photo_cons. inversion Hnd as [|? ? Hx Hnd']; subst.
  destruct Hin as [->|Hin]; [rewrite String.eqb_refl; reflexivity|].
  destruct (String.eqb (id x) (id p)) eqn:E; [|apply IH; assumption].
  apply String.eqb_eq in E. exfalso. apply Hx. rewrite E.
  apply in_map. exact Hin.
Qed.

Lemma NoDup_map_filter {A B} (f : A -> B) (g : A -> bool) l :
  NoDup (map f l) -> NoDup (map f (filter g l)).
Proof.
  induction l as [|x l IH]; intros H; [constructor|].
  inversion H as [|? ? Hx Hnd]; subst. simpl.
  destruct (g x); [|apply IH; exact Hnd].
  simpl. constructor; [|apply IH; exact Hnd].
  intros Hin. apply Hx. apply in_map_iff in Hin.
  destruct Hin as (y & Hy & Hin). apply filter_In in Hin.
  rewrite <- Hy. apply in_map. tauto.
Qed.

Lemma lookup_photo_filter g i l q :
  lookup_photo i l = Some q -> g q = true ->
  lookup_photo i (filter g l) = Some q.
Proof.
  induction l as [|x l IH]; [discriminate|].
  rewrite lookup_photo_cons. intros H Hg.
  destruct (String.eqb (id x) i) eqn:E.
  - inversion H; subst x. simpl. rewrite Hg.
    rewrite lookup_photo_cons, E. reflexivity.
  - simpl. destruct (g x); [rewrite lookup_photo_cons, E|]; apply IH;
      assumption.
Qed.

(** The invariant of the loop, when the store can be read and the photos
    still to be handled are in the store under ids of their own: a photo is
    marked and counted as a success, or untouched and counted as a failure;
    the entries under other ids are not changed. *)
Lemma syncLoop_accounts env url cb n rest : forall i s f w,
  never_throws cb ->
  (forall t, getItem_fault env t = None) ->
  NoDup (map id rest) ->
  (forall p, In p rest ->
             lookup_photo (id p) (photos_of w) = Some p
             /\ synced p = false) ->
  exists s' f' w',
    SyncService.syncLoop env url cb n i rest s f w = (Ok (s', f'), w')
    /\ tick w <= tick w'
    /\ (forall j, ~ In j (map id rest) ->
          lookup_photo j (photos_of w') = lookup_photo j (photos_of w))
    /\ (forall p, In p rest ->
          lookup_photo (id p) (photos_of w') = Some p
          \/ exists t,
               tick w <= t /\ t <= tick w'
               /\ lookup_photo (id p) (photos_of w')
                  = Some (StorageService.mark (clock env t) p))
    /\ s' = s + List.length (filter (synced_in (photos_of w')) rest)
    /\ f' = f + List.length (filter (pending_in (photos_of w')) rest).
Proof.
  induction rest as [|p rest IH]; intros i s f w Hcb Hr Hnd Hin.
  - exists s, f, w. simpl. repeat split; auto; try lia; contradiction.
  - rewrite syncLoop_cons by exact Hcb. cbv zeta.
    set (w0 := match cb with Some _ => _ | None => w end).
    assert (H0 : photos_of w0 = photos_of w /\ tick w0 = tick w)
      by (subst w0; destruct cb; split; reflexivity).
    destruct H0 as [Hp0 Ht0].
    inversion Hnd as [|? ? Hfresh Hnd']; subst.
    destruct (Hin p (or_introl eq_refl)) as [Hlook Hpend].
    destruct (attempt_cases env url p w0 Hr) as (b & w1 & Heq & Htick & Hb).
    rewrite Heq.
    assert (Hrest : forall j, j <> id p ->
                      lookup_photo j (photos_of w1)
                      = lookup_photo j (photos_of w)).
    { intros j Hj. destruct b.
      - destruct Hb as (t & _ & _ & _ & Ho). rewrite Ho by exact Hj.
        rewrite Hp0. reflexivity.
      - unfold photos_of. rewrite Hb. fold (photos_of w0).
        rewrite Hp0. reflexivity. }
    assert (Hin1 : forall q, In q rest ->
                     lookup_photo (id q) (photos_of w1) = Some q
                     /\ synced q = false).
    { intros q Hq. destruct (Hin q (or_intror Hq)) as [H1 H2].
      split; [|exact H2]. rewrite Hrest; [exact H1|].
      intros E. apply Hfresh. rewrite <- E. apply in_map. exact Hq. }
    assert (Hstep : forall s0 f0,
      exists s' f' w',
        SyncService.syncLoop env url cb n (S i) rest s0 f0 w1
        = (Ok (s', f'), w')
        /\ tick w <= tick w'
        /\ (forall j, ~ In j (map id (p :: rest)) ->
              lookup_photo j (photos_of w') = lookup_photo j (photos_of w))
        /\ lookup_photo (id p) (photos_of w')
           = lookup_photo (id p) (photos_of w1)
        /\ tick w1 <= tick w'
        /\ (forall q, In q rest ->
              lookup_photo (id q) (photos_of w') = Some q
              \/ exists t,
                   tick w <= t /\ t <= tick w'
                   /\ lookup_photo (id q) (photos_of w')
                      = Some (StorageService.mark (clock env t) q))
        /\ s' = s0 + List.length (filter (synced_in (photos_of w')) rest)
        /\ f' = f0 + List.length (filter (pending_in (photos_of w')) rest)).
    { intros s0 f0.
      destruct (IH (S i) s0 f0 w1 Hcb Hr Hnd' Hin1)
        as (s' & f' & w' & E & I1 & I2 & I3 & I4 & I5).
      exists s', f', w'. split; [exact E|]. split; [lia|].
      split; [|split; [|split; [|split; [|split]]]]; auto.
      - intros j Hj. simpl in Hj. rewrite I2 by tauto.
        apply Hrest. intros E'. apply Hj. left. congruence.
      - intros q Hq. destruct (I3 q Hq) as [H|(t & H1 & H2 & H3)];
          [left; exact H|].
        right. exists t. repeat split; try assumption. lia. }
    destruct b.
    + destruct Hb as (t & Hb1 & Hb2 & Hmark & _).
      destruct (Hstep (S s) f)
        as (s' & f' & w' & E & J1 & J2 & J3 & J4 & J5 & J6 & J7).
      exists s', f', w'. split; [exact E|]. split; [exact J1|].
      split; [exact J2|].
      assert (Hp : lookup_photo (id p) (photos_of w')
                   = Some (StorageService.mark (clock env t) p)).
      { rewrite J3. apply Hmark. rewrite Hp0. exact Hlook. }
      split; [|split].
      * intros q [<-|Hq]; [|apply J5; exact Hq].
        right. exists t. repeat split; try assumption; lia.
      * simpl. unfold synced_in at 1. rewrite Hp. simpl. lia.
      * simpl. unfold pending_in at 1. rewrite Hp. simpl. lia.
    + destruct (Hstep s (S f))
        as (s' & f' & w' & E & J1 & J2 & J3 & J4 & J5 & J6 & J7).
      exists s', f', w'. split; [exact E|]. split; [exact J1|].
      split; [exact J2|].
      assert (Hp : lookup_photo (id p) (photos_of w') = Some p).
      { rewrite J3. unfold photos_of. rewrite Hb. fold (photos_of w0).
        rewrite Hp0. exact Hlook. }
      split; [|split].
      * intros q [<-|Hq]; [left; exact Hp | apply J5; exact Hq].
      * simpl. unfold synced_in at 1. rewrite Hp, Hpend. lia.
      * simpl. unfold pending_in at 1. rewrite Hp, Hpend. simpl. lia.
Qed.

Lemma photos_of_after_loop env w :
  getItem_fault env (2 + tick w) = None ->
  photos_of (after_loop env w)
  = match setItem_fault env (4 + tick w) with
    | None => filter (StorageService.keepPhoto
                        (clock env (3 + tick w) - 7 * msPerDay))
                     (photos_of w)
    | Some _ => photos_of w
    end.
Proof.
  intros Hr. rewrite after_loop_world. cbv zeta. rewrite Hr.
  unfold photos_of. cbn [storage].
  destruct (setItem_fault env (4 + tick w));
    destruct (setItem_fault env (S (tick w))); reflexivity.
Qed.

(** C1, the claim as worded fails.  The callback is called outside the
    [try] of the item: when it throws on the second photo, the pass stops
    with one photo marked and returns the message of the error, without
    [successCount] and [failCount], so the two other photos are counted
    nowhere.  And [markPhotoAsSynced] marks by id: when two pending photos
    have the same id and only the upload of the first succeeds, the second
    is counted in [failCount] and is marked synced all the same, so that
    nothing is left pending. *)
Lemma syncPhotos_accounting_needs_conditions :
  fst (SyncService.syncPhotos Sample.env Sample.url
         (Some Sample.throws_on_second) Sample.idle)
  = Ok (mkSyncResult false "timeout of 60000ms exceeded" None None None)
  /\ map synced
         (photos_of (snd (SyncService.syncPhotos Sample.env Sample.url
                            (Some Sample.throws_on_second) Sample.idle)))
     = [true; false; false]
  /\ fst (SyncService.syncPhotos Sample.env Sample.url None Sample.twins)
     = Ok (mkSyncResult true "Synced 1 photos, 1 failed" None
             (Some 1) (Some 1))
  /\ map synced
         (photos_of (snd (SyncService.syncPhotos Sample.env Sample.url None
                            Sample.twins)))
     = [true; true].
Proof. repeat split; vm_compute; reflexivity. Qed.

(** C1, amended: in a pass that gets past the guard and the WiFi check,
    when the callback does not throw, AsyncStorage can be read, the stored
    photos have ids of their own and the pass, from its start to its last
    call, takes less than the seven days of the retention rule.  Every
    photo of the list of unsynced photos taken at the start is, in the
    store the pass leaves, either the same entry, still with [synced]
    false, or that entry marked [synced] with a date; none is removed.
    When the list is not empty, [successCount] is the number of its photos
    that are marked, [failCount] the number of those still pending, and
    they add up to the length of the list.  (When the list is empty the
    pass returns "No photos to sync" with count 0.)  Writes to
    AsyncStorage and requests to the server may fail in any way. *)
Theorem syncPhotos_accounts_for_every_photo env url cb w :
  isSyncing w = false ->
  wifi_at env (tick w) = true ->
  never_throws cb ->
  (forall t, getItem_fault env t = None) ->
  NoDup (map id (photos_of w)) ->
  (forall t t',
      tick w <= t -> t <= t' ->
      t' <= tick (snd (SyncService.syncPhotos env url cb w)) ->
      (clock env t' - clock env t < 7 * msPerDay)%Z) ->
  let pending := filter (fun p => negb (synced p)) (photos_of w) in
  let r := fst (SyncService.syncPhotos env url cb w) in
  let w' := snd (SyncService.syncPhotos env url cb w) in
  (forall p, In p pending ->
     (lookup_photo (id p) (photos_of w') = Some p
      /\ In p (photos_of w') /\ synced p = false)
     \/ (exists t,
           lookup_photo (id p) (photos_of w')
           = Some (StorageService.mark t p)
           /\ In (StorageService.mark t p) (photos_of w')))
  /\ (pending <> [] ->
      exists s f,
        r = Ok (mkSyncResult true (SyncService.synced_message s f) None
                  (Some s) (Some f))
        /\ s = List.length (filter (synced_in (photos_of w')) pending)
        /\ f = List.length (filter (pending_in (photos_of w')) pending)
        /\ s + f = List.length pending)
  /\ (pending = [] ->
      r = Ok (mkSyncResult true "No photos to sync" (Some 0) None None)).
Proof.
  intros Hidle Hwifi Hcb Hr Hnd Hclock pending r w'. subst r w'.
  pose proof (syncPhotos_pass env url cb w Hidle Hwifi) as Hpass.
  assert (Hsnap : snapshot_of env w = pending)
    by (unfold snapshot_of; rewrite Hr; reflexivity).
  rewrite Hsnap in Hpass.
  assert (Epending : pending
                     = filter (fun p => negb (synced p)) (photos_of w))
    by reflexivity.
  clearbody pending. clear Hsnap.
  destruct pending as [|p0 l0] eqn:E0.
  { rewrite Hpass. split; [intros p []|].
    split; [intros H; contradiction H; reflexivity|]. reflexivity. }
  cbv iota in Hpass. rewrite <- E0 in Hpass. rewrite <- E0 in Epending.
  rewrite <- E0.
  assert (Hin : forall p, In p pending ->
                  lookup_photo (id p) (photos_of (loop_start w)) = Some p
                  /\ synced p = false).
  { intros p Hp. rewrite Epending in Hp. apply filter_In in Hp.
    destruct Hp as [Hp Hs]. split.
    - apply (lookup_photo_NoDup (photos_of w) p Hnd Hp).
    - destruct (synced p); [discriminate | reflexivity]. }
  assert (Hndp : NoDup (map id pending))
    by (rewrite Epending; apply NoDup_map_filter; exact Hnd).
  destruct (syncLoop_accounts env url cb (List.length pending) pending
              0 0 0 (loop_start w) Hcb Hr Hndp Hin)
    as (s & f & wl & Heq & Htick & _ & Hitem & Hs & Hf).
  destruct (syncLoop_runs env url cb (List.length pending) pending
              0 0 0 (loop_start w) Hcb)
    as (s2 & f2 & wl2 & Heq2 & _ & _ & _ & _ & _ & Hsum).
  rewrite Heq in Heq2. inversion Heq2; subst s2 f2 wl2. clear Heq2.
  rewrite Heq in Hpass. rewrite Hpass in Hclock |- *.
  cbn [fst snd] in Hclock |- *.
  assert (Hend : tick (set_isSyncing false (after_loop env wl))
                 = 5 + tick wl)
    by (rewrite after_loop_world; reflexivity).
  rewrite Hend in Hclock.
  change (photos_of (set_isSyncing false (after_loop env wl)))
    with (photos_of (after_loop env wl)).
  assert (Hsame : forall p, In p pending ->
            lookup_photo (id p) (photos_of (after_loop env wl))
            = lookup_photo (id p) (photos_of wl)).
  { intros p Hp. rewrite photos_of_after_loop by apply Hr.
    destruct (setItem_fault env (4 + tick wl)); [reflexivity|].
    destruct (Hitem p Hp) as [H|(t & H1 & H2 & H)]; rewrite H;
      apply lookup_photo_filter; try exact H.
    - unfold StorageService.keepPhoto.
      destruct (Hin p Hp) as [_ ->]. reflexivity.
    - unfold StorageService.keepPhoto. simpl. apply Z.ltb_lt.
      assert (H0 : tick w <= t)
        by (unfold loop_start in H1; simpl in H1; lia).
      assert (H3 : t <= 3 + tick wl) by lia.
      assert (H5 : 3 + tick wl <= 5 + tick wl) by lia.
      pose proof (Hclock t (3 + tick wl) H0 H3 H5) as H4.
      unfold msPerDay in *. simpl in H4 |- *. lia. }
  split; [|split].
  - intros p Hp. rewrite (Hsame p Hp).
    destruct (Hitem p Hp) as [H|(t & _ & _ & H)].
    + left. split; [exact H|]. split; [|apply (Hin p Hp)].
      rewrite <- (Hsame p Hp) in H. apply lookup_photo_In in H. tauto.
    + right. exists (clock env t). split; [exact H|].
      rewrite <- (Hsame p Hp) in H. apply lookup_photo_In in H. tauto.
  - intros _. exists s, f. split; [reflexivity|].
    split; [|split].
    + rewrite Hs. simpl. f_equal. apply filter_ext_in.
      intros p Hp. unfold synced_in. rewrite (Hsame p Hp). reflexivity.
    + rewrite Hf. simpl. f_equal. apply filter_ext_in.
      intros p Hp. unfold pending_in. rewrite (Hsame p Hp). reflexivity.
    + simpl in Hsum. exact Hsum.
  - intros H. rewrite E0 in H. discriminate.
Qed.

Lemma syncPhotos_accounts_for_every_photo_witness :
  fst (SyncService.syncPhotos Sample.env Sample.url
         (Some (fun _ => Ok tt)) Sample.idle)
  = Ok (mkSyncResult true "Synced 2 photos, 1 failed" None
          (Some 2) (Some 1))
  /\ lookup_photo "2"
       (photos_of (snd (SyncService.syncPhotos Sample.env Sample.url
                          (Some (fun _ => Ok tt)) Sample.idle)))
     = Some (Sample.shot "2" "c.jpg").
Proof.
  destruct (syncPhotos_accounts_for_every_photo
              Sample.env Sample.url (Some (fun _ => Ok tt)) Sample.idle)
    as (Hitem & H & _).
  - reflexivity.
  - reflexivity.
  - intros ev. reflexivity.
  - intros t. reflexivity.
  - simpl. repeat constructor; simpl; intuition discriminate.
  - intros t t' _ Hle Hend. vm_compute in Hend.
    unfold msPerDay. cbn [clock Sample.env]. lia.
  - destruct H as (s & f & H1 & Hs & Hf & _); [discriminate|].
    vm_compute in Hs, Hf. subst s f. split; [exact H1|].
    destruct (Hitem (Sample.shot "2" "c.jpg")) as [(H2 & _)|(t & H2 & _)].
    + right. left. reflexivity.
    + exact H2.
    + vm_compute in H2. discriminate.
Defined.

(* ------------------------------------------------------------------ *)
(** * Further properties of the local store *)

(** X1: Capture, then list: with a working store [saveOfflinePhoto] appends
    one entry, not synced, bound to the complaint and carrying the data of
    the capture; the entries stored before are unchanged, and
    [getUnsyncedPhotos] then lists the pending photos as before, followed by
    the new one. *)
Theorem saveOfflinePhoto_appends env cid pd w :
  getItem_fault env (tick w) = None ->
  setItem_fault env (3 + tick w) = None ->
  let w' := snd (StorageService.saveOfflinePhoto env cid pd w) in
  exists p,
    fst (StorageService.saveOfflinePhoto env cid pd w) = Ok p
    /\ p = mkPhoto (string_of_Z (clock env (1 + tick w))) cid (pd_uri pd)
             (pd_fileName pd) (pd_latitude pd) (pd_longitude pd)
             (Some (clock env (2 + tick w))) false None
    /\ photos_of w' = (photos_of w ++ [p])%list
    /\ (getItem_fault env (tick w') = None ->
        fst (StorageService.getUnsyncedPhotos env w')
        = Ok (filter (fun q => negb (synced q)) (photos_of w) ++ [p])%list).
Proof.
  intros Hr Hw w'. subst w'. rewrite saveOfflinePhoto_eq. cbv zeta.
  rewrite Hr. change (S (S (S (tick w)))) with (3 + tick w). rewrite Hw.
  cbn [fst snd]. eexists. split; [reflexivity|]. split; [reflexivity|].
  split; [reflexivity|].
  intros Hr'. rewrite getUnsyncedPhotos_eq. cbn [fst]. rewrite Hr'.
  rewrite photos_of_write, filter_app. reflexivity.
Qed.

Lemma saveOfflinePhoto_appends_witness :
  photos_of (snd (StorageService.saveOfflinePhoto Sample.env "PMC2024001"
                    (mkPhotoData "d.jpg" (Some "d.jpg") None None)
                    Sample.idle))
  = [Sample.shot "1" "a.jpg"; Sample.shot "2" "c.jpg";
     Sample.shot "3" "b.jpg";
     mkPhoto "1001" "PMC2024001" "d.jpg" (Some "d.jpg") None None
             (Some 1002%Z) false None].
Proof.
  destruct (saveOfflinePhoto_appends Sample.env "PMC2024001"
              (mkPhotoData "d.jpg" (Some "d.jpg") None None) Sample.idle)
    as (p & _ & Hp & H & _); [reflexivity | reflexivity |].
  rewrite H, Hp. reflexivity.
Defined.

(** X2: A failed read is taken for an empty collection; when the write that
    follows succeeds, it replaces the stored photos: [saveOfflinePhoto]
    leaves the new photo alone in the collection, [markPhotoAsSynced] and
    [cleanupSyncedPhotos] leave it empty. *)
Theorem failed_read_then_write_replaces_photos env e w :
  getItem_fault env (tick w) = Some e ->
  (forall cid pd,
      setItem_fault env (3 + tick w) = None ->
      exists p,
        fst (StorageService.saveOfflinePhoto env cid pd w) = Ok p
        /\ offline_photos
             (storage (snd (StorageService.saveOfflinePhoto env cid pd w)))
           = Some [p])
  /\ (forall i,
        setItem_fault env (1 + tick w) = None ->
        fst (StorageService.markPhotoAsSynced env i w) = Ok tt
        /\ offline_photos
             (storage (snd (StorageService.markPhotoAsSynced env i w)))
           = Some [])
  /\ (setItem_fault env (2 + tick w) = None ->
      offline_photos
        (storage (snd (StorageService.cleanupSyncedPhotos env w)))
      = Some []).
Proof.
  intros He. split; [|split].
  - intros cid pd Hw. rewrite saveOfflinePhoto_eq. cbv zeta.
    rewrite He. change (S (S (S (tick w)))) with (3 + tick w). rewrite Hw.
    eexists. split; reflexivity.
  - intros i Hw.
    destruct (markPhotoAsSynced_cases env i w) as (l' & k & Hm & Heq).
    rewrite He in Hm. cbn [StorageService.mark_matching] in Hm.
    unfold ret in Hm. inversion Hm as [[Hl Hk]].
    assert (k = 0) by lia. subst k l'.
    rewrite Heq. rewrite Nat.add_0_r.
    change (S (tick w)) with (1 + tick w). rewrite Hw.
    split; reflexivity.
  - intros Hw. rewrite cleanupSyncedPhotos_world. cbn [snd storage].
    change (S (S (tick w))) with (2 + tick w). rewrite Hw, He.
    reflexivity.
Qed.

Lemma failed_read_then_write_replaces_photos_witness :
  offline_photos
    (storage (snd (StorageService.cleanupSyncedPhotos Sample.env_unreadable
                     Sample.idle)))
  = Some [].
Proof.
  refine (proj2 (proj2 (failed_read_then_write_replaces_photos
                          Sample.env_unreadable Sample.disk_full Sample.idle
                          _)) _); reflexivity.
Defined.

(** What a successful [markPhotoAsSynced] leaves in the store. *)
Lemma markPhotoAsSynced_ok env i w :
  getItem_fault env (tick w) = None ->
  fst (StorageService.markPhotoAsSynced env i w) = Ok tt ->
  Forall2 (fun p p' =>
             if String.eqb (id p) i
             then exists t, p' = StorageService.mark t p
             else p' = p)
          (photos_of w)
          (photos_of (snd (StorageService.markPhotoAsSynced env i w))).
Proof.
  intros Hr Hok.
  destruct (markPhotoAsSynced_cases env i w) as (l' & k & Hm & Heq).
  rewrite Hr in Hm.
  destruct (mark_matching_eq env i (photos_of w)
              (outside (EvGetItem OFFLINE_PHOTOS) w))
    as (l2 & k2 & Hm2 & _ & _ & _ & Hall).
  rewrite Hm in Hm2. inversion Hm2; subst l2. clear Hm2.
  rewrite Heq in Hok |- *.
  destruct (setItem_fault env (S (tick w) + k)); [discriminate|].
  cbn [snd]. rewrite photos_of_write.
  eapply Forall2_impl; [|exact Hall]. cbv beta. intros a b.
  destruct (String.eqb (id a) i); [|auto].
  intros (t & _ & Hb). exists (clock env t). exact Hb.
Qed.

Lemma marked_pending i l l' :
  Forall2 (fun p p' =>
             if String.eqb (id p) i
             then exists t, p' = StorageService.mark t p
             else p' = p) l l' ->
  filter (fun p => negb (synced p)) l'
  = filter (fun p => negb (synced p) && negb (String.eqb (id p) i)) l
  /\ map id l' = map id l
  /\ map synced l'
     = map (fun p => synced p || String.eqb (id p) i) l.
Proof.
  induction 1 as [|p p' l l' Hp Hall IH]; [repeat split|].
  destruct IH as (IH1 & IH2 & IH3). simpl.
  destruct (String.eqb (id p) i).
  - destruct Hp as [t ->]. simpl. rewrite andb_false_r, orb_true_r.
    rewrite IH1, IH2, IH3. repeat split.
  - subst p'. rewrite andb_true_r, orb_false_r. rewrite IH1, IH2, IH3.
    repeat split.
Qed.

(** X3: Mark, then list: after a successful [markPhotoAsSynced i] on a readable
    store, the collection has the same entries in the same order, those
    whose id is [i] now synced with a date and every other entry untouched;
    no entry loses its [synced] flag; and [getUnsyncedPhotos] lists the
    photos that were pending before, in order, without those of id [i]. *)
Theorem markPhotoAsSynced_then_pending env i w :
  getItem_fault env (tick w) = None ->
  fst (StorageService.markPhotoAsSynced env i w) = Ok tt ->
  let w' := snd (StorageService.markPhotoAsSynced env i w) in
  map id (photos_of w') = map id (photos_of w)
  /\ map synced (photos_of w')
     = map (fun p => synced p || String.eqb (id p) i) (photos_of w)
  /\ (forall p, In p (photos_of w) -> id p <> i -> In p (photos_of w'))
  /\ (forall p', In p' (photos_of w') -> id p' = i ->
        synced p' = true /\ exists t, syncedAt p' = Some t)
  /\ (getItem_fault env (tick w') = None ->
      fst (StorageService.getUnsyncedPhotos env w')
      = Ok (filter (fun p => negb (synced p) && negb (String.eqb (id p) i))
                   (photos_of w))).
Proof.
  intros Hr Hok w'. subst w'.
  pose proof (markPhotoAsSynced_ok env i w Hr Hok) as Hall.
  destruct (marked_pending i _ _ Hall) as (H1 & H2 & H3).
  split; [exact H2|]. split; [exact H3|]. split; [|split].
  - intros p Hp Hne.
    clear H1 H2 H3. induction Hall as [|a b l l' Hab Hall IH];
      [contradiction|].
    destruct Hp as [->|Hp].
    + apply String.eqb_neq in Hne. rewrite Hne in Hab. left. exact Hab.
    + right. apply IH. exact Hp.
  - intros p' Hp' Hid. clear H1 H2 H3.
    induction Hall as [|a b l l' Hab Hall IH]; [contradiction|].
    destruct Hp' as [->|Hp']; [|apply IH; exact Hp'].
    destruct (String.eqb (id a) i) eqn:E.
    + destruct Hab as [t ->]. split; [reflexivity|]. exists t. reflexivity.
    + subst p'. apply String.eqb_neq in E. contradiction.
  - intros Hr'. rewrite getUnsyncedPhotos_eq, Hr'. cbn [fst].
    rewrite H1. reflexivity.
Qed.

Lemma markPhotoAsSynced_then_pending_witness :
  fst (StorageService.getUnsyncedPhotos Sample.env
         (snd (StorageService.markPhotoAsSynced Sample.env "2" Sample.idle)))
  = Ok [Sample.shot "1" "a.jpg"; Sample.shot "3" "b.jpg"].
Proof.
  refine (proj2 (proj2 (proj2 (proj2
            (markPhotoAsSynced_then_pending Sample.env "2" Sample.idle
               _ _)))) _); reflexivity.
Defined.

Lemma complaints_of_write l s b t tr :
  complaints_of (mkWorld (write_complaints l s) b t tr) = l.
Proof. reflexivity. Qed.

Lemma upsert_overwrites c c0 l :
  complaint_id c = complaint_id c0 ->
  StorageService.upsert c (StorageService.upsert c0 l)
  = StorageService.upsert c l.
Proof.
  intros Hid. induction l as [|x l IH].
  - change (StorageService.upsert c0 []) with [c0].
    rewrite upsert_cons, Hid, same_id_refl. reflexivity.
  - rewrite (upsert_cons c0), (upsert_cons c x), <- Hid.
    destruct (StorageService.same_id (complaint_id c) x) eqn:E.
    + rewrite upsert_cons, Hid, same_id_refl. reflexivity.
    + rewrite upsert_cons, E, IH. reflexivity.
Qed.

Lemma upsert_ids c l :
  map complaint_id (StorageService.upsert c l)
  = if existsb (StorageService.same_id (complaint_id c)) l
    then map complaint_id l
    else (map complaint_id l ++ [complaint_id c])%list.
Proof.
  induction l as [|x l IH]; [reflexivity|].
  rewrite upsert_cons. simpl.
  destruct (StorageService.same_id (complaint_id c) x) eqn:E; simpl.
  - unfold StorageService.same_id in E. apply String.eqb_eq in E.
    rewrite E. reflexivity.
  - rewrite IH. destruct (existsb _ l); reflexivity.
Qed.

(** X4: Saving a complaint again: with a working store, [saveSyncedComplaint]
    of a complaint right after one with the same id leaves the collection
    that saving it alone leaves (the last payload wins; saving the same
    payload twice is saving it once). *)
Theorem saveSyncedComplaint_last_wins env c c0 w :
  no_storage_faults env ->
  complaint_id c = complaint_id c0 ->
  complaints_of
    (snd (StorageService.saveSyncedComplaint env c
            (snd (StorageService.saveSyncedComplaint env c0 w))))
  = complaints_of (snd (StorageService.saveSyncedComplaint env c w))
  /\ find (StorageService.same_id (complaint_id c0))
          (complaints_of
             (snd (StorageService.saveSyncedComplaint env c
                     (snd (StorageService.saveSyncedComplaint env c0 w)))))
     = Some c.
Proof.
  intros [Hr Hw] Hid.
  rewrite (saveSyncedComplaint_eq env c0 w (Hr _) (Hw _)). cbn [snd].
  rewrite !saveSyncedComplaint_eq by auto. cbn [snd].
  rewrite !complaints_of_write.
  rewrite upsert_overwrites by exact Hid.
  split; [reflexivity|]. rewrite <- Hid. apply find_upsert_same.
Qed.

Lemma saveSyncedComplaint_last_wins_witness :
  complaints_of
    (snd (StorageService.saveSyncedComplaint Sample.env Sample.road
            (snd (StorageService.saveSyncedComplaint Sample.env Sample.road
                    Sample.cached))))
  = complaints_of
      (snd (StorageService.saveSyncedComplaint Sample.env Sample.road
              Sample.cached)).
Proof.
  refine (proj1 (saveSyncedComplaint_last_wins Sample.env Sample.road
                   Sample.road Sample.cached _ _));
    [split; reflexivity | reflexivity].
Defined.

(** X5: One snapshot per id: with a working readable store,
    [saveSyncedComplaint] replaces the first snapshot that has the id of the
    complaint, at its position, or appends the complaint when no snapshot
    has it; the ids of the collection are otherwise unchanged, so ids that
    were distinct stay distinct and the collection grows by one entry at
    most. *)
Theorem saveSyncedComplaint_keeps_ids env c w :
  getItem_fault env (tick w) = None ->
  setItem_fault env (1 + tick w) = None ->
  let l := complaints_of w in
  let l' := complaints_of (snd (StorageService.saveSyncedComplaint env c w)) in
  map complaint_id l'
  = (if existsb (StorageService.same_id (complaint_id c)) l
     then map complaint_id l
     else map complaint_id l ++ [complaint_id c])%list
  /\ (NoDup (map complaint_id l) -> NoDup (map complaint_id l'))
  /\ List.length l <= List.length l' <= S (List.length l).
Proof.
  intros Hr Hw l l'. subst l l'.
  rewrite (saveSyncedComplaint_eq env c w Hr Hw). cbn [snd].
  rewrite !complaints_of_write.
  pose proof (upsert_ids c (complaints_of w)) as Hids.
  split; [exact Hids|]. split.
  - intros Hnd. rewrite Hids.
    destruct (existsb _ _) eqn:E; [exact Hnd|].
    apply NoDup_app; [exact Hnd | repeat constructor; intros [] |].
    intros k Hk [<-|[]].
    assert (Hex : existsb (StorageService.same_id (complaint_id c))
                    (complaints_of w) = true).
    { apply existsb_exists. apply in_map_iff in Hk.
      destruct Hk as (x & Hx & Hin). exists x. split; [exact Hin|].
      unfold StorageService.same_id. apply String.eqb_eq. exact Hx. }
    congruence.
  - assert (Hlen : List.length (map complaint_id
                                  (StorageService.upsert c (complaints_of w)))
                   = List.length (StorageService.upsert c (complaints_of w)))
      by apply length_map.
    rewrite Hids in Hlen. rewrite <- Hlen.
    destruct (existsb _ _);
      [rewrite length_map | rewrite length_app, length_map; simpl]; lia.
Qed.

Lemma saveSyncedComplaint_keeps_ids_witness :
  map complaint_id
    (complaints_of (snd (StorageService.saveSyncedComplaint Sample.env
                           Sample.lamp Sample.cached)))
  = ["PMC2024001"; "PMC2024002"].
Proof.
  refine (proj1 (saveSyncedComplaint_keeps_ids Sample.env Sample.lamp
                   Sample.cached _ _)); reflexivity.
Defined.

Lemma getLastSync_eq env w :
  StorageService.getLastSync env w
  = (Ok (match getItem_fault env (tick w) with
         | None => last_sync (storage w)
         | Some _ => None
         end),
     outside (EvGetItem LAST_SYNC) w).
Proof.
  unfold StorageService.getLastSync, try_catch, getItem, ret.
  destruct (getItem_fault env (tick w)); reflexivity.
Qed.

(** X6: Write the cursor, then read it: after [updateLastSync], a [getLastSync]
    whose read works returns the time that [updateLastSync] read from the
    clock, or, when the write failed, the cursor as it was; the two
    collections are not touched. *)
Theorem updateLastSync_then_getLastSync env w :
  getItem_fault env (2 + tick w) = None ->
  let w' := snd (StorageService.updateLastSync env w) in
  fst (StorageService.getLastSync env w')
  = Ok (match setItem_fault env (1 + tick w) with
        | None => Some (clock env (tick w))
        | Some _ => last_sync (storage w)
        end)
  /\ offline_photos (storage w') = offline_photos (storage w)
  /\ synced_complaints (storage w') = synced_complaints (storage w).
Proof.
  intros Hr w'. subst w'. rewrite updateLastSync_eq. cbn [snd].
  rewrite getLastSync_eq. cbn [fst tick storage].
  change (2 + tick w) with (S (S (tick w))) in Hr. rewrite Hr.
  change (1 + tick w) with (S (tick w)).
  destruct (setItem_fault env (S (tick w))); repeat split.
Qed.

Lemma updateLastSync_then_getLastSync_witness :
  fst (StorageService.getLastSync Sample.env
         (snd (StorageService.updateLastSync Sample.env Sample.idle)))
  = Ok (Some 1000%Z).
Proof.
  refine (proj1 (updateLastSync_then_getLastSync Sample.env Sample.idle _)).
  reflexivity.
Defined.

Lemma clearAll_eq env w :
  StorageService.clearAll env w
  = (Ok tt,
     match multiRemove_fault env (tick w) with
     | None => set_storage (mkStorage None None None)
                           (outside EvMultiRemove w)
     | Some _ => outside EvMultiRemove w
     end).
Proof.
  unfold StorageService.clearAll, try_catch, multiRemove, ret.
  destruct (multiRemove_fault env (tick w)); reflexivity.
Qed.

(** X7: [clearAll] never rejects.  When the removal works, the three keys are
    gone: whatever was stored, the photos and the complaints then read as
    empty lists and the cursor as absent.  When it fails, the store is as
    before. *)
Theorem clearAll_empties_the_store env w :
  let w' := snd (StorageService.clearAll env w) in
  fst (StorageService.clearAll env w) = Ok tt
  /\ match multiRemove_fault env (tick w) with
     | None =>
         storage w' = mkStorage None None None
         /\ fst (StorageService.getOfflinePhotos env w') = Ok []
         /\ fst (StorageService.getUnsyncedPhotos env w') = Ok []
         /\ fst (StorageService.getSyncedComplaints env w') = Ok []
         /\ fst (StorageService.getLastSync env w') = Ok None
         /\ (forall cid,
               fst (StorageService.getComplaintById env cid w') = Ok None)
     | Some _ => storage w' = storage w
     end.
Proof.
  intros w'. subst w'. rewrite clearAll_eq. cbn [fst snd].
  split; [reflexivity|].
  destruct (multiRemove_fault env (tick w)); [reflexivity|].
  split; [reflexivity|].
  rewrite getOfflinePhotos_eq, getUnsyncedPhotos_eq, getSyncedComplaints_eq,
    getLastSync_eq.
  cbn [fst].
  split; [destruct (getItem_fault env _); reflexivity|].
  split; [destruct (getItem_fault env _); reflexivity|].
  split; [destruct (getItem_fault env _); reflexivity|].
  split; [destruct (getItem_fault env _); reflexivity|].
  intros cid. rewrite storage_getComplaintById_eq. cbn [fst].
  destruct (getItem_fault env _); reflexivity.
Qed.

Lemma isOnline_eq env w :
  SyncService.isOnline env w
  = (Ok (online_at env (tick w)), outside EvNetwork w).
Proof.
  unfold SyncService.isOnline, try_catch, bind, ret, online_at,
    SyncService.Network_getNetworkStateAsync.
  destruct (getNetworkStateAsync env (tick w)); reflexivity.
Qed.

Lemma getSyncStatus_eq env w :
  SyncService.getSyncStatus env w
  = (Ok (mkSyncStatus
           (List.length
              (filter (fun p => negb (synced p))
                      (match getItem_fault env (tick w) with
                       | None => photos_of w
                       | Some _ => []
                       end)))
           (match getItem_fault env (1 + tick w) with
            | None => last_sync (storage w)
            | Some _ => None
            end)
           (online_at env (2 + tick w))
           (wifi_at env (3 + tick w))
           (isSyncing w)),
     mkWorld (storage w) (isSyncing w) (4 + tick w)
             (trace w ++ [EvGetItem OFFLINE_PHOTOS; EvGetItem LAST_SYNC;
                          EvNetwork; EvNetwork])%list).
Proof.
  unfold SyncService.getSyncStatus.
  unfold bind at 1. rewrite getUnsyncedPhotos_eq.
  unfold bind at 1. rewrite getLastSync_eq.
  unfold bind at 1. rewrite isOnline_eq.
  unfold bind at 1. rewrite isConnectedToWiFi_eq.
  unfold outside. simpl. rewrite <- !app_assoc. reflexivity.
Qed.

(** X8: [getSyncStatus] only looks: it always resolves, whatever the store and
    the network do, and leaves the store and the [isSyncing] flag as they
    are.  It reports the flag as it is; when the two reads work, the number
    of photos not yet synced and the stored cursor; and the answers of two
    probes of the network made one after the other. *)
Theorem getSyncStatus_is_read_only env w :
  let w' := snd (SyncService.getSyncStatus env w) in
  storage w' = storage w
  /\ isSyncing w' = isSyncing w
  /\ exists status,
       fst (SyncService.getSyncStatus env w) = Ok status
       /\ st_isSyncing status = isSyncing w
       /\ st_isOnline status = online_at env (2 + tick w)
       /\ st_hasWiFi status = wifi_at env (3 + tick w)
       /\ (getItem_fault env (tick w) = None ->
           unsyncedCount status
           = List.length (filter (fun p => negb (synced p)) (photos_of w)))
       /\ (getItem_fault env (1 + tick w) = None ->
           lastSync status = last_sync (storage w)).
Proof.
  intros w'. subst w'. rewrite getSyncStatus_eq. cbn [fst snd].
  split; [reflexivity|]. split; [reflexivity|].
  eexists. split; [reflexivity|]. cbn.
  split; [reflexivity|]. split; [reflexivity|]. split; [reflexivity|].
  split; intros ->; reflexivity.
Qed.

(* ------------------------------------------------------------------ *)
(** * Which part of the store a method can change *)

Section Preserves.

Context {X : Type} (part : Storage -> X).

Lemma preserves_ret {A} (a : A) : preserves part (ret a).
Proof. intros w r w' H. inversion H; subst. reflexivity. Qed.

Lemma preserves_throw {A} e : preserves part (@throw A e).
Proof. intros w r w' H. inversion H; subst. reflexivity. Qed.

Lemma preserves_bind {A B} (m : M A) (k : A -> M B) :
  preserves part m -> (forall a, preserves part (k a)) ->
  preserves part (bind m k).
Proof.
  intros Hm Hk w r w'. unfold bind.
  destruct (m w) as [[a|e] w1] eqn:E; intros H.
  - rewrite (Hk a _ _ _ H). exact (Hm _ _ _ E).
  - inversion H; subst. exact (Hm _ _ _ E).
Qed.

Lemma preserves_try_catch {A} (m : M A) (h : Error -> M A) :
  preserves part m -> (forall e, preserves part (h e)) ->
  preserves part (try_catch m h).
Proof.
  intros Hm Hh w r w'. unfold try_catch.
  destruct (m w) as [[a|e] w1] eqn:E; intros H.
  - inversion H; subst. exact (Hm _ _ _ E).
  - rewrite (Hh e _ _ _ H). exact (Hm _ _ _ E).
Qed.

Lemma preserves_keeps_store {A} (m : M A) :
  keeps_store m -> preserves part m.
Proof. intros Hm w r w' H. rewrite (Hm _ _ _ H). reflexivity. Qed.

Lemma preserves_setItem env k write :
  (forall s, part (write s) = part s) ->
  preserves part (setItem env k write).
Proof.
  intros Hpart w r w'. unfold setItem.
  destruct (setItem_fault env (tick w)); intros H; inversion H; subst;
    simpl; auto.
Qed.

End Preserves.

Ltac preserved :=
  repeat first
    [ progress intros
    | match goal with
      | |- preserves _ (bind _ _) => apply preserves_bind
      | |- preserves _ (try_catch _ _) => apply preserves_try_catch
      | |- preserves _ (ret _) => apply preserves_ret
      | |- preserves _ (throw _) => apply preserves_throw
      | |- preserves _ (setItem _ _ _) =>
          apply preserves_setItem; reflexivity
      | |- preserves _ _ =>
          apply preserves_keeps_store; solve [frame]
      end ].

Lemma keeps_store_getOfflinePhotos env :
  keeps_store (StorageService.getOfflinePhotos env).
Proof. unfold StorageService.getOfflinePhotos. frame. Qed.

Lemma keeps_store_getSyncedComplaints env :
  keeps_store (StorageService.getSyncedComplaints env).
Proof. unfold StorageService.getSyncedComplaints. frame. Qed.

Lemma keeps_store_mark_matching env i l :
  keeps_store (StorageService.mark_matching env i l).
Proof.
  induction l as [|p l IH]; simpl; [frame|].
  destruct (String.eqb (id p) i); frame.
Qed.

#[export] Hint Resolve keeps_store_getOfflinePhotos
  keeps_store_getSyncedComplaints keeps_store_mark_matching : frame.

(** The photo operations write the photos only. *)
Lemma photo_writes_preserve {X} (part : Storage -> X) env :
  (forall l s, part (write_photos l s) = part s) ->
  (forall i, preserves part (StorageService.markPhotoAsSynced env i))
  /\ preserves part (StorageService.cleanupSyncedPhotos env)
  /\ (forall cid pd, preserves part
                       (StorageService.saveOfflinePhoto env cid pd)).
Proof.
  intros Hpart. split; [|split]; intros.
  - unfold StorageService.markPhotoAsSynced. preserved.
    apply preserves_setItem. intros s. apply Hpart.
  - unfold StorageService.cleanupSyncedPhotos. preserved.
    apply preserves_setItem. intros s. apply Hpart.
  - unfold StorageService.saveOfflinePhoto. preserved.
    apply preserves_setItem. intros s. apply Hpart.
Qed.

Lemma saveSyncedComplaint_preserves {X} (part : Storage -> X) env c :
  (forall l s, part (write_complaints l s) = part s) ->
  preserves part (StorageService.saveSyncedComplaint env c).
Proof.
  intros Hpart. unfold StorageService.saveSyncedComplaint. preserved.
  apply preserves_setItem. intros s. apply Hpart.
Qed.

Lemma keeps_store_callback cb ev : keeps_store (SyncService.callback cb ev).
Proof.
  intros w r w'. destruct cb as [f|]; simpl; intros H; inversion H;
    reflexivity.
Qed.

Lemma syncLoop_preserves {X} (part : Storage -> X) env url cb n rest :
  (forall l s, part (write_photos l s) = part s) ->
  forall i s f, preserves part (SyncService.syncLoop env url cb n i rest s f).
Proof.
  intros Hpart.
  destruct (photo_writes_preserve part env Hpart) as (Hmark & _ & _).
  induction rest as [|p rest IH]; intros i s f; simpl; [preserved|].
  apply preserves_bind;
    [apply preserves_keeps_store, keeps_store_callback|].
  intros _. apply preserves_bind.
  - apply preserves_try_catch; [|preserved].
    apply preserves_bind;
      [apply preserves_keeps_store, uploadPhoto_frame|].
    intros _. apply preserves_bind; [apply Hmark | preserved].
  - intros [|]; apply IH.
Qed.

Lemma syncPhotos_preserves {X} (part : Storage -> X) env url cb :
  (forall l s, part (write_photos l s) = part s) ->
  (forall t s, part (write_last_sync t s) = part s) ->
  preserves part (SyncService.syncPhotos env url cb).
Proof.
  intros Hphotos Hcursor.
  assert (Hin : preserves part
                  (try_catch (SyncService.syncPhotos_try env url cb)
                     (fun error =>
                        ret (SyncService.rejected (err_message error))))).
  2: { intros w r w'. unfold SyncService.syncPhotos.
       destruct (isSyncing w); [intros H; inversion H; reflexivity|].
       unfold try_finally.
       destruct (try_catch _ _ w) as [r1 w1] eqn:E. intros H.
       inversion H; subst. exact (Hin _ _ _ E). }
  destruct (photo_writes_preserve part env Hphotos) as (_ & Hclean & _).
  unfold SyncService.syncPhotos_try.
  apply preserves_try_catch; [|preserved].
  apply preserves_bind.
  { intros w0 r0 w2 H0. inversion H0; reflexivity. }
  intros _. apply preserves_bind.
  { apply preserves_keeps_store. unfold SyncService.isConnectedToWiFi.
    frame. intros w0 r0 w2 H0. inversion H0; reflexivity. }
  intros hasWiFi. destruct (negb hasWiFi); [preserved|].
  apply preserves_bind.
  { apply preserves_keeps_store. unfold StorageService.getUnsyncedPhotos.
    frame. }
  intros unsyncedPhotos. destruct (Nat.eqb _ 0); [preserved|].
  apply preserves_bind; [apply syncLoop_preserves; exact Hphotos|].
  intros counts. apply preserves_bind.
  { unfold StorageService.updateLastSync. preserved.
    apply preserves_setItem. intros s. apply Hcursor. }
  intros _. apply preserves_bind; [exact Hclean | preserved].
Qed.

(** X9: The orchestrator never touches the cache of complaints: whatever the
    network, the server, the store and the callback do, [syncPhotos] and
    [autoSync] leave the [synced_complaints] collection as it is. *)
Theorem orchestrator_leaves_complaints_alone env url cb w :
  synced_complaints (storage (snd (SyncService.syncPhotos env url cb w)))
  = synced_complaints (storage w)
  /\ synced_complaints (storage (snd (SyncService.autoSync env url cb w)))
     = synced_complaints (storage w).
Proof.
  assert (Hs : preserves synced_complaints
                 (SyncService.syncPhotos env url cb))
    by (apply syncPhotos_preserves; reflexivity).
  split.
  - destruct (SyncService.syncPhotos env url cb w) as [r w'] eqn:E.
    exact (Hs _ _ _ E).
  - unfold SyncService.autoSync, bind. rewrite isConnectedToWiFi_eq.
    destruct (wifi_at env (tick w)); [|reflexivity].
    destruct (SyncService.syncPhotos env url cb (outside EvNetwork w))
      as [r w'] eqn:E.
    exact (Hs _ _ _ E).
Qed.

(* ------------------------------------------------------------------ *)
(** * Further properties of the cache of complaints *)

Lemma never_rejects_getComplaintById env cid :
  never_rejects (ComplaintService.getComplaintById env cid).
Proof.
  unfold ComplaintService.getComplaintById.
  apply never_rejects_try_catch. intros e. apply never_rejects_bind.
  - apply storage_reads_never_reject.
  - intros [c|]; apply never_rejects_ret.
Qed.

Lemma never_rejects_getAllComplaints env :
  never_rejects (ComplaintService.getAllComplaints env).
Proof.
  unfold ComplaintService.getAllComplaints.
  apply never_rejects_try_catch. intros e. apply never_rejects_bind.
  - apply storage_reads_never_reject.
  - intros l. destruct (Nat.ltb 0 _); apply never_rejects_ret.
Qed.

Lemma saveEach_preserves {X} (part : Storage -> X) env l :
  (forall l s, part (write_complaints l s) = part s) ->
  preserves part (ComplaintService.saveEach env l).
Proof.
  intros Hpart. induction l as [|c l IH]; simpl; [preserved|].
  apply preserves_bind; [|intros _; exact IH].
  apply saveSyncedComplaint_preserves. exact Hpart.
Qed.

Lemma keeps_store_storage_getComplaintById env cid :
  keeps_store (StorageService.getComplaintById env cid).
Proof. unfold StorageService.getComplaintById. frame. Qed.

Lemma complaint_service_preserves {X} (part : Storage -> X) env :
  (forall l s, part (write_complaints l s) = part s) ->
  (forall cid, preserves part (ComplaintService.getComplaintById env cid))
  /\ preserves part (ComplaintService.getAllComplaints env)
  /\ (forall q, preserves part (ComplaintService.searchComplaints env q)).
Proof.
  intros Hpart. split; [|split]; intros.
  - unfold ComplaintService.getComplaintById.
    apply preserves_try_catch.
    + apply preserves_bind.
      * intros w r w' H. inversion H; reflexivity.
      * intros data. apply preserves_bind; [|preserved].
        apply saveSyncedComplaint_preserves. exact Hpart.
    + intros e. apply preserves_bind.
      * apply preserves_keeps_store, keeps_store_storage_getComplaintById.
      * intros [c|]; preserved.
  - unfold ComplaintService.getAllComplaints.
    apply preserves_try_catch.
    + apply preserves_bind.
      * intros w r w' H. inversion H; reflexivity.
      * intros data. apply preserves_bind; [|preserved].
        destruct (results data); [|preserved].
        apply saveEach_preserves. exact Hpart.
    + intros e. apply preserves_bind.
      * apply preserves_keeps_store, keeps_store_getSyncedComplaints.
      * intros l. destruct (Nat.ltb 0 _); preserved.
  - intros w r w' H. rewrite searchComplaints_eq in H.
    inversion H; reflexivity.
Qed.

(** X10: The three methods that fetch complaints always resolve with a result
    object, whatever the server and the store do, and they never touch the
    queue of photos or the cursor. *)
Theorem complaint_service_resolves_and_keeps_photos env w :
  (forall cid,
      (exists r, fst (ComplaintService.getComplaintById env cid w) = Ok r)
      /\ offline_photos
           (storage (snd (ComplaintService.getComplaintById env cid w)))
         = offline_photos (storage w)
      /\ last_sync
           (storage (snd (ComplaintService.getComplaintById env cid w)))
         = last_sync (storage w))
  /\ ((exists r, fst (ComplaintService.getAllComplaints env w) = Ok r)
      /\ offline_photos
           (storage (snd (ComplaintService.getAllComplaints env w)))
         = offline_photos (storage w)
      /\ last_sync (storage (snd (ComplaintService.getAllComplaints env w)))
         = last_sync (storage w))
  /\ (forall q,
        (exists r, fst (ComplaintService.searchComplaints env q w) = Ok r)
        /\ storage (snd (ComplaintService.searchComplaints env q w))
           = storage w).
Proof.
  destruct (complaint_service_preserves offline_photos env)
    as (P1 & P2 & _); [reflexivity|].
  destruct (complaint_service_preserves last_sync env)
    as (L1 & L2 & _); [reflexivity|].
  split; [|split].
  - intros cid. split; [apply never_rejects_getComplaintById|].
    destruct (ComplaintService.getComplaintById env cid w) as [r w'] eqn:E.
    split; [exact (P1 cid _ _ _ E) | exact (L1 cid _ _ _ E)].
  - split; [apply never_rejects_getAllComplaints|].
    destruct (ComplaintService.getAllComplaints env w) as [r w'] eqn:E.
    split; [exact (P2 _ _ _ E) | exact (L2 _ _ _ E)].
  - intros q. rewrite searchComplaints_eq. split; [|reflexivity].
    eexists. reflexivity.
Qed.

Lemma getOfflinePhotosByComplaint_eq env cid w :
  StorageService.getOfflinePhotosByComplaint env cid w
  = (Ok (filter (fun p => String.eqb (complaintId p) cid)
                (match getItem_fault env (tick w) with
                 | None => photos_of w
                 | Some _ => []
                 end)),
     outside (EvGetItem OFFLINE_PHOTOS) w).
Proof.
  unfold StorageService.getOfflinePhotosByComplaint, try_catch, bind, ret.
  rewrite getOfflinePhotos_eq. reflexivity.
Qed.

(** X11: [getComplaintPhotos] never reports a failure: its [catch] cannot be
    reached, since neither the lookup nor the reading of the stored photos
    rejects.  The result is always a success whose [total] is the number
    of online photos plus the number of offline photos; when the lookup
    gave no data or data without [geotagged_photos] the online list is
    empty, and when the store can be read the offline list holds the
    stored photos of that complaint, in order. *)
Theorem getComplaintPhotos_always_succeeds env cid w :
  exists online offline,
    fst (ComplaintService.getComplaintPhotos env cid w)
    = Ok (mkPhotosResult true None online offline
            (Some (List.length online + List.length offline)))
    /\ online
       = ComplaintService.onlinePhotos_of
           match fst (ComplaintService.getComplaintById env cid w) with
           | Ok r => r
           | Throw _ => mkFetchResult false None None false
           end
    /\ ((forall t, getItem_fault env t = None) ->
        offline
        = filter (fun p => String.eqb (complaintId p) cid) (photos_of w)).
Proof.
  unfold ComplaintService.getComplaintPhotos, try_catch.
  unfold bind at 1.
  destruct (never_rejects_getComplaintById env cid w) as [r Hr].
  destruct (complaint_service_preserves offline_photos env)
    as (P1 & _ & _); [reflexivity|].
  destruct (ComplaintService.getComplaintById env cid w) as [r0 w1] eqn:E.
  cbn [fst] in Hr |- *. subst r0. pose proof (P1 cid _ _ _ E) as Hp.
  unfold bind. rewrite getOfflinePhotosByComplaint_eq. cbn [fst ret].
  eexists _, _. split; [reflexivity|]. split; [reflexivity|].
  intros Hok. rewrite Hok. unfold photos_of. rewrite Hp. reflexivity.
Qed.

(** X12: Fetch, lose the network, fetch again: with a working store, after a
    lookup that succeeded with a payload stored under the requested id, a
    lookup of the same id whose request fails returns that payload,
    flagged offline. *)
Theorem getComplaintById_serves_last_payload env cid data error w :
  no_storage_faults env ->
  api_by_complaint_id env cid (tick w) = Ok data ->
  complaint_id data = cid ->
  let w1 := snd (ComplaintService.getComplaintById env cid w) in
  api_by_complaint_id env cid (tick w1) = Throw error ->
  fst (ComplaintService.getComplaintById env cid w)
  = Ok (mkFetchResult true (Some data) None false)
  /\ fst (ComplaintService.getComplaintById env cid w1)
     = Ok (mkFetchResult true (Some data) None true).
Proof.
  intros [Hr Hw] Hok Hid w1. subst w1.
  rewrite (getComplaintById_cases env cid w (Hr _) (Hw _)), Hok.
  cbn [fst snd]. intros Hfail. split; [reflexivity|].
  rewrite getComplaintById_cases by auto. cbn [tick] in Hfail |- *.
  rewrite Hfail. cbn [fst]. rewrite complaints_of_write.
  rewrite <- Hid, find_upsert_same. reflexivity.
Qed.

Lemma getComplaintById_serves_last_payload_witness :
  fst (ComplaintService.getComplaintById Sample.env_outage "PMC2024001"
         (snd (ComplaintService.getComplaintById Sample.env_outage
                 "PMC2024001" Sample.fresh)))
  = Ok (mkFetchResult true (Some Sample.road) None true).
Proof.
  refine (proj2 (getComplaintById_serves_last_payload Sample.env_outage
                   "PMC2024001" Sample.road Sample.not_found Sample.fresh
                   _ _ _ _));
    [split; reflexivity | reflexivity | reflexivity | reflexivity].
Defined.

Lemma find_upsert_all_other k l : forall existing,
  ~ In k (map complaint_id l) ->
  find (StorageService.same_id k) (upsert_all l existing)
  = find (StorageService.same_id k) existing.
Proof.
  induction l as [|c l IH]; intros existing Hk; [reflexivity|].
  simpl in Hk. unfold upsert_all in *. simpl. rewrite IH by tauto.
  apply find_upsert_other. intros E. apply Hk. left. congruence.
Qed.

Lemma find_upsert_all_In c l : forall existing,
  NoDup (map complaint_id l) -> In c l ->
  find (StorageService.same_id (complaint_id c)) (upsert_all l existing)
  = Some c.
Proof.
  induction l as [|c0 l IH]; intros existing Hnd Hin; [contradiction|].
  inversion Hnd as [|? ? Hfresh Hnd']; subst.
  change (upsert_all (c0 :: l) existing)
    with (upsert_all l (StorageService.upsert c0 existing)).
  destruct Hin as [->|Hin].
  - rewrite find_upsert_all_other by exact Hfresh. apply find_upsert_same.
  - apply IH; assumption.
Qed.

(** X13: List, lose the network, look up: with a working store, after a listing
    that succeeded with results whose ids are distinct, the lookup of the
    id of any listed complaint whose request fails returns the listed
    complaint, flagged offline. *)
Theorem getAllComplaints_feeds_lookup env data l c error w :
  no_storage_faults env ->
  api_complaints env (tick w) = Ok data ->
  results data = Some l ->
  NoDup (map complaint_id l) ->
  In c l ->
  let w1 := snd (ComplaintService.getAllComplaints env w) in
  api_by_complaint_id env (complaint_id c) (tick w1) = Throw error ->
  fst (ComplaintService.getComplaintById env (complaint_id c) w1)
  = Ok (mkFetchResult true (Some c) None true).
Proof.
  intros Hok Hlist Hres Hnd Hin w1 Hfail. subst w1.
  pose proof (getAllComplaints_cases env w Hok) as H. cbv zeta in H.
  rewrite Hlist, Hres in H. destruct H as [_ Hstore].
  destruct Hok as [Hr Hw].
  rewrite getComplaintById_cases by auto. rewrite Hfail. cbn [fst].
  rewrite Hstore, find_upsert_all_In by assumption. reflexivity.
Qed.

Lemma getAllComplaints_feeds_lookup_witness :
  fst (ComplaintService.getComplaintById Sample.env_outage "PMC2024002"
         (snd (ComplaintService.getAllComplaints Sample.env_outage
                 Sample.fresh)))
  = Ok (mkFetchResult true (Some Sample.lamp) None true).
Proof.
  refine (getAllComplaints_feeds_lookup Sample.env_outage
            (mkListing (Some [Sample.road; Sample.lamp]))
            [Sample.road; Sample.lamp] Sample.lamp Sample.not_found
            Sample.fresh _ _ _ _ _ _);
    [split; reflexivity | reflexivity | reflexivity | | | reflexivity].
  - repeat constructor; simpl; intuition discriminate.
  - right. left. reflexivity.
Defined.

(* ------------------------------------------------------------------ *)
(** * Further properties of the orchestrator *)

Lemma autoSync_eq env url cb w :
  SyncService.autoSync env url cb w
  = if wifi_at env (tick w)
    then SyncService.syncPhotos env url cb (outside EvNetwork w)
    else (Ok (SyncService.rejected "No WiFi connection"),
          outside EvNetwork w).
Proof.
  unfold SyncService.autoSync, bind. rewrite isConnectedToWiFi_eq.
  destruct (wifi_at env (tick w)); reflexivity.
Qed.

(** X14: [autoSync] probes the network before it hands over to [syncPhotos],
    which probes it again.  Without WiFi at the first probe it reports "No
    WiFi connection"; with WiFi while a pass is running it gets the
    rejection of the guard; with WiFi at the first probe and not at the
    second it reports that WiFi is required.  In these three cases nothing
    but the network was touched.  In every case a flag that was false is
    false when [autoSync] returns. *)
Theorem autoSync_outcomes env url cb w :
  (wifi_at env (tick w) = false ->
   SyncService.autoSync env url cb w
   = (Ok (mkSyncResult false "No WiFi connection" None None None),
      outside EvNetwork w))
  /\ (wifi_at env (tick w) = true -> isSyncing w = true ->
      SyncService.autoSync env url cb w
      = (Ok (mkSyncResult false "Sync already in progress" None None None),
         outside EvNetwork w))
  /\ (wifi_at env (tick w) = true -> isSyncing w = false ->
      wifi_at env (1 + tick w) = false ->
      SyncService.autoSync env url cb w
      = (Ok (mkSyncResult false "WiFi connection required for syncing"
                          None None None),
         outside EvNetwork (outside EvNetwork w)))
  /\ (isSyncing w = false ->
      isSyncing (snd (SyncService.autoSync env url cb w)) = false).
Proof.
  rewrite autoSync_eq. split; [|split; [|split]].
  - intros ->. reflexivity.
  - intros -> Hbusy. unfold SyncService.syncPhotos.
    cbn [outside isSyncing]. rewrite Hbusy. reflexivity.
  - intros -> Hidle Hwifi.
    assert (H : isSyncing (outside EvNetwork w) = false) by exact Hidle.
    unfold SyncService.syncPhotos. rewrite H.
    unfold try_finally, try_catch, SyncService.syncPhotos_try.
    unfold bind at 1. cbv beta iota.
    unfold bind at 1. rewrite isConnectedToWiFi_eq.
    change (tick (set_isSyncing true (outside EvNetwork w)))
      with (1 + tick w).
    rewrite Hwifi. cbv beta iota. cbn [negb ret].
    unfold outside, set_isSyncing. cbn. rewrite Hidle. reflexivity.
  - intros Hidle. destruct (wifi_at env (tick w)); [|exact Hidle].
    apply syncPhotos_idle_resets. exact Hidle.
Qed.

Lemma try_catch_rethrow {A} (m : M A) w :
  try_catch m (fun error => throw error) w = m w.
Proof. unfold try_catch, throw. destruct (m w) as [[a|e] w']; reflexivity. Qed.

Lemma precheck_eq env url w :
  try_catch (SyncService.api_get_complaints env ;;; ret tt)
            (fun testError => throw (SyncService.unreachable url testError))
            w
  = (match api_complaints env (tick w) with
     | Ok _ => Ok tt
     | Throw testError => Throw (SyncService.unreachable url testError)
     end,
     outside (EvApiGet "/api/complaints/") w).
Proof.
  unfold try_catch, bind, SyncService.api_get_complaints, ret, throw.
  destruct (api_complaints env (tick w)); reflexivity.
Qed.

Lemma location_of_spec p la lo :
  SyncService.location_of p = Some (la, lo)
  <-> latitude p = Some la /\ longitude p = Some lo
      /\ la <> 0%Z /\ lo <> 0%Z.
Proof.
  unfold SyncService.location_of, SyncService.truthy_number.
  destruct (latitude p) as [a|], (longitude p) as [b|];
    try (split; [discriminate | intros (H & _); discriminate]);
    try (split; [discriminate | intros (_ & H & _); discriminate]).
  destruct (Z.eqb_spec a 0), (Z.eqb_spec b 0); simpl; split;
    try discriminate;
    try (intros (Ha & Hb & H1 & H2); inversion Ha; inversion Hb; subst;
         congruence).
  intros H. inversion H; subst. auto.
Qed.

(** X15: [uploadPhoto] first asks the server for the list of complaints.  When
    that request fails, the upload is not attempted and the error raised
    names the server and carries the message of the failure.  When it
    succeeds, exactly one upload follows, whose outcome is the outcome of
    [uploadPhoto]; its form carries the id of the complaint, the file under
    its name, or under [photo_<now>.jpg] when the name is missing or empty,
    the time stamp, and the location only when latitude and longitude are
    both present and both different from zero.  The store is never
    touched. *)
Theorem uploadPhoto_precheck_then_upload env url p w :
  storage (snd (SyncService.uploadPhoto env url p w)) = storage w
  /\ match api_complaints env (tick w) with
     | Throw testError =>
         SyncService.uploadPhoto env url p w
         = (Throw (mkError
                     ("Cannot reach server at " ++ url ++ ". Error: "
                      ++ err_message testError
                      ++ ". Please check your WiFi connection and ensure you're on the same network as the server.")
                     None),
            outside (EvApiGet "/api/complaints/") w)
     | Ok _ =>
         exists name w1,
           let formData :=
             mkFormData (complaintId p) (uri p) name
                        (SyncService.location_of p) (timestamp p) in
           SyncService.uploadPhoto env url p w
           = (api_upload_photo env formData (tick w1),
              outside (EvApiPost "/api/upload-photo/" formData) w1)
           /\ trace w1 = (trace w ++ [EvApiGet "/api/complaints/"])%list
           /\ match fileName p with
              | Some s =>
                  if String.eqb s ""
                  then name = "photo_" ++ string_of_Z (clock env (1 + tick w))
                              ++ ".jpg"
                  else name = s
              | None =>
                  name = "photo_" ++ string_of_Z (clock env (1 + tick w))
                         ++ ".jpg"
              end
           /\ (forall la lo,
                 fd_location formData = Some (la, lo)
                 <-> latitude p = Some la /\ longitude p = Some lo
                     /\ la <> 0%Z /\ lo <> 0%Z)
     end.
Proof.
  split.
  { destruct (uploadPhoto_frame env url p) as [_ Hk].
    destruct (SyncService.uploadPhoto env url p w) as [r w'] eqn:E.
    exact (Hk _ _ _ E). }
  destruct (api_complaints env (tick w)) as [listing|testError] eqn:E;
    unfold SyncService.uploadPhoto; rewrite try_catch_rethrow;
    unfold bind at 1; rewrite precheck_eq, E; [|reflexivity].
  unfold SyncService.truthy_string.
  destruct (fileName p) as [s|]; [destruct (String.eqb s ""); cbn [negb]|].
  - eexists _, _. cbv zeta. split; [reflexivity|].
    split; [reflexivity|]. split; [reflexivity|].
    intros la lo. apply location_of_spec.
  - eexists _, _. cbv zeta. split; [reflexivity|].
    split; [reflexivity|]. split; [reflexivity|].
    intros la lo. apply location_of_spec.
  - eexists _, _. cbv zeta. split; [reflexivity|].
    split; [reflexivity|]. split; [reflexivity|].
    intros la lo. apply location_of_spec.
Qed.

(** X16: A callback that throws stops the pass: when the callback throws on
    the first photo, [syncPhotos] reports a failure with the message of
    that error; no request was sent to the server, the store is as it was
    (no photo marked, cursor not written, no cleanup), and the flag is
    false again. *)
Theorem syncPhotos_callback_error_stops_the_pass env url onProgress e p l w :
  isSyncing w = false ->
  wifi_at env (tick w) = true ->
  snapshot_of env w = p :: l ->
  onProgress (mkProgress 1 (List.length (p :: l)) p) = Throw e ->
  let w' := snd (SyncService.syncPhotos env url (Some onProgress) w) in
  fst (SyncService.syncPhotos env url (Some onProgress) w)
  = Ok (mkSyncResult false (err_message e) None None None)
  /\ storage w' = storage w
  /\ isSyncing w' = false
  /\ trace w'
     = (trace w ++ [EvNetwork; EvGetItem OFFLINE_PHOTOS;
                    EvProgress (mkProgress 1 (List.length (p :: l)) p)])%list.
Proof.
  intros Hidle Hwifi Hsnap Hthrow w'. subst w'.
  rewrite (syncPhotos_pass env url _ w Hidle Hwifi), Hsnap.
  cbn [SyncService.syncLoop]. unfold bind at 1.
  cbn [SyncService.callback Nat.add]. rewrite Hthrow.
  cbn [fst snd]. split; [reflexivity|]. split; [reflexivity|].
  split; [reflexivity|].
  unfold loop_start, outside, set_isSyncing. simpl.
  rewrite <- !app_assoc. reflexivity.
Qed.

Lemma syncPhotos_callback_error_stops_the_pass_witness :
  fst (SyncService.syncPhotos Sample.env Sample.url
         (Some (fun _ => Throw Sample.timeout)) Sample.idle)
  = Ok (mkSyncResult false "timeout of 60000ms exceeded" None None None).
Proof.
  refine (proj1 (syncPhotos_callback_error_stops_the_pass Sample.env
                   Sample.url (fun _ => Throw Sample.timeout) Sample.timeout
                   (Sample.shot "1" "a.jpg")
                   [Sample.shot "2" "c.jpg"; Sample.shot "3" "b.jpg"]
                   Sample.idle _ _ _ _)); reflexivity.
Defined.

Lemma marks_only_refl l : marks_only l l.
Proof. induction l; constructor; auto. Qed.

Lemma marks_only_trans l1 l2 : marks_only l1 l2 ->
  forall l3, marks_only l2 l3 -> marks_only l1 l3.
Proof.
  induction 1 as [|a b l1 l2 Hab H12 IH]; intros l3 H23;
    inversion H23 as [|? c ? l3' Hbc H23']; subst; constructor.
  - destruct Hab as [->|[t ->]]; [exact Hbc|].
    right. destruct Hbc as [->|[t' ->]]; [exists t | exists t'];
      reflexivity.
  - apply IH. exact H23'.
Qed.

Lemma marks_only_ids l l' :
  marks_only l l' ->
  map id l' = map id l
  /\ (forall p', In p' l' -> synced p' = false -> In p' l).
Proof.
  induction 1 as [|a b l l' Hab H IH]; [split; [reflexivity | auto]|].
  destruct IH as [IH1 IH2]. split.
  - simpl. rewrite IH1. destruct Hab as [->|[t ->]]; reflexivity.
  - intros p' [<-|Hin] Hs.
    + destruct Hab as [->|[t ->]]; [left; reflexivity | discriminate].
    + right. apply IH2; assumption.
Qed.

Lemma markPhotoAsSynced_marks_only env i w :
  getItem_fault env (tick w) = None ->
  marks_only (photos_of w)
             (photos_of (snd (StorageService.markPhotoAsSynced env i w))).
Proof.
  intros Hr.
  destruct (StorageService.markPhotoAsSynced env i w) as [[[]|e] w'] eqn:E.
  - pose proof (markPhotoAsSynced_ok env i w Hr) as H. rewrite E in H.
    specialize (H eq_refl). cbn [snd] in *.
    eapply Forall2_impl; [|exact H]. cbv beta. intros a b.
    destruct (String.eqb (id a) i); [intros [t ->]; right; exists t|left];
      auto.
  - destruct (markPhotoAsSynced_cases env i w) as (l' & k & _ & Heq).
    rewrite Heq in E. destruct (setItem_fault env _); inversion E; subst.
    cbn [snd]. apply marks_only_refl.
Qed.

Lemma attempt_marks_only env url p w :
  (forall t, getItem_fault env t = None) ->
  marks_only (photos_of w) (photos_of (snd (attempt env url p w))).
Proof.
  intros Hr. unfold attempt, try_catch. unfold bind at 1.
  destruct (uploadPhoto_frame env url p) as [_ Hk].
  destruct (SyncService.uploadPhoto env url p w) as [[[]|e] wu] eqn:Eu;
    pose proof (Hk _ _ _ Eu) as Hst;
    assert (Hp : photos_of wu = photos_of w)
      by (unfold photos_of; rewrite Hst; reflexivity).
  - unfold bind at 1.
    pose proof (markPhotoAsSynced_marks_only env (id p) wu (Hr _)) as H.
    rewrite Hp in H.
    destruct (StorageService.markPhotoAsSynced env (id p) wu)
      as [[[]|e] w2]; exact H.
  - cbn [snd ret]. rewrite Hp. apply marks_only_refl.
Qed.

Lemma syncLoop_marks_only env url cb n rest : forall i s f w,
  (forall t, getItem_fault env t = None) ->
  marks_only (photos_of w)
    (photos_of (snd (SyncService.syncLoop env url cb n i rest s f w))).
Proof.
  induction rest as [|p rest IH]; intros i s f w Hr;
    [apply marks_only_refl|].
  cbn [SyncService.syncLoop]. unfold bind at 1.
  destruct (SyncService.callback cb (mkProgress (i + 1) n p) w)
    as [[[]|e] w0] eqn:E0;
    pose proof (keeps_store_callback cb _ _ _ _ E0) as Hst;
    assert (Hp : photos_of w0 = photos_of w)
      by (unfold photos_of; rewrite Hst; reflexivity).
  - unfold bind at 1. fold (attempt env url p).
    pose proof (attempt_marks_only env url p w0 Hr) as Ha.
    rewrite Hp in Ha.
    destruct (attempt env url p w0) as [[[|]|e] w1]; cbn [snd] in Ha |- *;
      try (eapply marks_only_trans; [exact Ha | apply IH; exact Hr]).
    exact Ha.
  - cbn [snd]. rewrite Hp. apply marks_only_refl.
Qed.

(** X17: The loop only marks: when the store can be read, whatever the server
    and the callback do and whatever write fails, the collection after the
    loop of [syncPhotos] has the entries it had before, in the same order,
    each one either untouched or marked synced; so the loop removes
    nothing, and no entry goes from synced to not synced. *)
Theorem syncLoop_only_marks env url cb n i rest s f w :
  (forall t, getItem_fault env t = None) ->
  let l := photos_of w in
  let l' := photos_of
              (snd (SyncService.syncLoop env url cb n i rest s f w)) in
  marks_only l l'
  /\ map id l' = map id l
  /\ List.length l' = List.length l
  /\ (forall k p, nth_error l k = Some p -> synced p = true ->
        exists p', nth_error l' k = Some p' /\ synced p' = true).
Proof.
  intros Hr l l'. subst l l'.
  pose proof (syncLoop_marks_only env url cb n rest i s f w Hr) as H.
  split; [exact H|]. split; [apply marks_only_ids; exact H|].
  split; [symmetry; eapply Forall2_length; exact H|].
  revert H. generalize (photos_of w).
  generalize (photos_of
                (snd (SyncService.syncLoop env url cb n i rest s f w))).
  intros l' l H. induction H as [|a b l l' Hab H IH]; intros k p Hk Hs.
  - destruct k; discriminate.
  - destruct k as [|k]; simpl in Hk |- *.
    + inversion Hk; subst a. exists b. split; [reflexivity|].
      destruct Hab as [->|[t ->]]; [exact Hs | reflexivity].
    + apply (IH k p Hk Hs).
Qed.

Lemma syncLoop_only_marks_witness :
  map id
    (photos_of
       (snd (SyncService.syncLoop Sample.env Sample.url None 3 0
               (photos_of Sample.idle) 0 0 Sample.idle)))
  = ["1"; "2"; "3"].
Proof.
  refine (proj1 (proj2 (syncLoop_only_marks Sample.env Sample.url None 3 0
                          (photos_of Sample.idle) 0 0 Sample.idle _))).
  intros t. reflexivity.
Defined.

Lemma uploadPhoto_ok env url p w :
  server_up env ->
  exists w1, SyncService.uploadPhoto env url p w = (Ok tt, w1).
Proof.
  intros [Hget Hpost]. unfold SyncService.uploadPhoto.
  rewrite try_catch_rethrow. unfold bind at 1. rewrite precheck_eq.
  destruct (Hget (tick w)) as [listing ->].
  unfold SyncService.api_post_upload_photo.
  destruct (fileName p) as [s|];
    [destruct (SyncService.truthy_string (Some s))|];
    unfold bind, Date_now, ret; rewrite Hpost; eexists; reflexivity.
Qed.

Lemma attempt_ok env url p w :
  server_up env ->
  (forall t, setItem_fault env t = None) ->
  exists w1, attempt env url p w = (Ok true, w1).
Proof.
  intros Hup Hw. unfold attempt, try_catch. unfold bind at 1.
  destruct (uploadPhoto_ok env url p w Hup) as [w1 ->].
  unfold bind at 1.
  destruct (markPhotoAsSynced_cases env (id p) w1) as (l' & k & _ & Heq).
  rewrite Heq, Hw. eexists. reflexivity.
Qed.

Lemma syncLoop_all_succeed env url cb n rest : forall i s f w,
  never_throws cb ->
  server_up env ->
  (forall t, setItem_fault env t = None) ->
  exists w',
    SyncService.syncLoop env url cb n i rest s f w
    = (Ok (s + List.length rest, f), w').
Proof.
  induction rest as [|p rest IH]; intros i s f w Hcb Hup Hw.
  - exists w. simpl. rewrite Nat.add_0_r. reflexivity.
  - rewrite syncLoop_cons by exact Hcb. cbv zeta.
    match goal with
    | |- context [attempt env url p ?w0] =>
        destruct (attempt_ok env url p w0 Hup Hw) as [w1 ->]
    end.
    destruct (IH (S i) (S s) f w1 Hcb Hup Hw) as [w' ->].
    exists w'. simpl. repeat f_equal. lia.
Qed.

Lemma filter_none {A} (g : A -> bool) l :
  (forall x, In x l -> g x = false) -> filter g l = [].
Proof.
  induction l as [|x l IH]; intros H; [reflexivity|]. simpl.
  rewrite (H x (or_introl eq_refl)). apply IH. intros y Hy. apply H.
  right. exact Hy.
Qed.

(** X18: One pass empties the queue when everything works: with WiFi, a
    working store, a server that answers every request and accepts every
    upload, a callback that does not throw and stored photos with ids of
    their own, no photo is pending after [syncPhotos]: [getUnsyncedPhotos]
    returns the empty list; and when [n] photos were pending, with [n] not
    zero, the result counts [n] successes and no failure.  A pass started
    right after, with WiFi, finds nothing to send: it probes the network,
    reads the store and returns "No photos to sync", so no photo is
    uploaded twice. *)
Theorem syncPhotos_drains_the_queue env url cb w :
  isSyncing w = false ->
  wifi_at env (tick w) = true ->
  never_throws cb ->
  no_storage_faults env ->
  server_up env ->
  NoDup (map id (photos_of w)) ->
  let n := List.length (filter (fun p => negb (synced p)) (photos_of w)) in
  let w' := snd (SyncService.syncPhotos env url cb w) in
  filter (fun p => negb (synced p)) (photos_of w') = []
  /\ fst (StorageService.getUnsyncedPhotos env w') = Ok []
  /\ (n <> 0 ->
      fst (SyncService.syncPhotos env url cb w)
      = Ok (mkSyncResult true (SyncService.synced_message n 0) None
              (Some n) (Some 0)))
  /\ (forall cb2,
        wifi_at env (tick w') = true ->
        fst (SyncService.syncPhotos env url cb2 w')
        = Ok (mkSyncResult true "No photos to sync" (Some 0) None None)
        /\ trace (snd (SyncService.syncPhotos env url cb2 w'))
           = (trace w' ++ [EvNetwork; EvGetItem OFFLINE_PHOTOS])%list).
Proof.
  intros Hidle Hwifi Hcb [Hr Hw] Hup Hnd n w'. subst n w'.
  assert (Hgoal :
    filter (fun p => negb (synced p))
           (photos_of (snd (SyncService.syncPhotos env url cb w))) = []
    /\ (List.length (filter (fun p => negb (synced p)) (photos_of w)) <> 0 ->
        fst (SyncService.syncPhotos env url cb w)
        = Ok (mkSyncResult true
                (SyncService.synced_message
                   (List.length
                      (filter (fun p => negb (synced p)) (photos_of w))) 0)
                None
                (Some (List.length
                         (filter (fun p => negb (synced p)) (photos_of w))))
                (Some 0)))).
  2: { destruct Hgoal as [H1 H2]. split; [exact H1|].
       split; [|split; [exact H2|]].
       - rewrite getUnsyncedPhotos_eq, Hr. cbn [fst]. rewrite H1.
         reflexivity.
       - intros cb2 Hwifi2.
         pose proof (syncPhotos_idle_resets env url cb w Hidle) as Hidle2.
         rewrite (syncPhotos_pass env url cb2 _ Hidle2 Hwifi2).
         unfold snapshot_of. rewrite Hr, H1. cbn [fst snd].
         split; [reflexivity|].
         unfold loop_start, outside, set_isSyncing. simpl.
         rewrite <- app_assoc. reflexivity. }
  rewrite (syncPhotos_pass env url cb w Hidle Hwifi).
  assert (Hsnap : snapshot_of env w
                  = filter (fun p => negb (synced p)) (photos_of w))
    by (unfold snapshot_of; rewrite Hr; reflexivity).
  rewrite Hsnap.
  remember (filter (fun p => negb (synced p)) (photos_of w)) as pending
    eqn:Epending.
  destruct pending as [|p0 l0] eqn:E0.
  { cbn [snd fst]. split; [|intros H; contradiction H; reflexivity].
    change (photos_of (set_isSyncing false (loop_start w)))
      with (photos_of w).
    symmetry. exact Epending. }
  cbv iota. rewrite <- E0. rewrite <- E0 in Epending.
  assert (Hin : forall p, In p pending ->
                  lookup_photo (id p) (photos_of (loop_start w)) = Some p
                  /\ synced p = false).
  { intros p Hp. rewrite Epending in Hp. apply filter_In in Hp.
    destruct Hp as [Hp Hs]. split.
    - apply (lookup_photo_NoDup (photos_of w) p Hnd Hp).
    - destruct (synced p); [discriminate | reflexivity]. }
  assert (Hndp : NoDup (map id pending))
    by (rewrite Epending; apply NoDup_map_filter; exact Hnd).
  destruct (syncLoop_all_succeed env url cb (List.length pending) pending
              0 0 0 (loop_start w) Hcb Hup Hw) as [wl Heq].
  destruct (syncLoop_accounts env url cb (List.length pending) pending
              0 0 0 (loop_start w) Hcb Hr Hndp Hin)
    as (s & f & wl2 & Heq2 & _ & _ & Hitem & _ & Hf).
  rewrite Heq in Heq2. inversion Heq2; subst s f wl2. clear Heq2.
  pose proof (syncLoop_marks_only env url cb (List.length pending) pending
                0 0 0 (loop_start w) Hr) as Hmarks.
  rewrite Heq in Hmarks. cbn [snd] in Hmarks.
  change (photos_of (loop_start w)) with (photos_of w) in Hmarks.
  destruct (marks_only_ids _ _ Hmarks) as [Hids Hback].
  assert (Hall : forall q, In q (photos_of wl) -> synced q = true).
  { intros q Hq. destruct (synced q) eqn:Es; [reflexivity|]. exfalso.
    pose proof (Hback q Hq Es) as HqL.
    assert (Hqp : In q pending)
      by (rewrite Epending; apply filter_In; split;
          [exact HqL | rewrite Es; reflexivity]).
    assert (Hlook : lookup_photo (id q) (photos_of wl) = Some q).
    { apply lookup_photo_NoDup; [rewrite Hids; exact Hnd | exact Hq]. }
    destruct (Hitem q Hqp) as [H|(t & _ & _ & H)].
    - assert (Hpend : pending_in (photos_of wl) q = true)
        by (unfold pending_in; rewrite H, Es; reflexivity).
      assert (Hfil : In q (filter (pending_in (photos_of wl)) pending))
        by (apply filter_In; split; assumption).
      destruct (filter (pending_in (photos_of wl)) pending);
        [contradiction | discriminate].
    - rewrite Hlook in H. inversion H as [Hq'].
      rewrite Hq' in Es. discriminate. }
  rewrite Heq. cbn [fst snd]. split.
  - change (photos_of (set_isSyncing false (after_loop env wl)))
      with (photos_of (after_loop env wl)).
    rewrite photos_of_after_loop by apply Hr. rewrite Hw.
    apply filter_none. intros q Hq. apply filter_In in Hq.
    rewrite (Hall q (proj1 Hq)). reflexivity.
  - intros _. rewrite Nat.add_0_l. reflexivity.
Qed.

Lemma syncPhotos_drains_the_queue_witness :
  fst (StorageService.getUnsyncedPhotos (Sample.env_at (Sample.day 8))
         (snd (SyncService.syncPhotos (Sample.env_at (Sample.day 8))
                 Sample.url None Sample.idle)))
  = Ok [].
Proof.
  refine (proj1 (proj2 (syncPhotos_drains_the_queue
                          (Sample.env_at (Sample.day 8)) Sample.url None
                          Sample.idle _ _ _ _ _ _)));
    [reflexivity | reflexivity | exact I | split; reflexivity | |].
  - split; [intros t; eexists; reflexivity | reflexivity].
  - simpl. repeat constructor; simpl; intuition discriminate.
Defined.

(* ------------------------------------------------------------------ *)
(** * The timer of the home screen *)

Lemma autoSync_resolves env url cb w :
  exists r, fst (SyncService.autoSync env url cb w) = Ok r.
Proof.
  rewrite autoSync_eq. destruct (wifi_at env (tick w)).
  - apply syncPhotos_resolves.
  - eexists. reflexivity.
Qed.

Lemma autoSync_idle env url cb w :
  isSyncing w = false ->
  isSyncing (snd (SyncService.autoSync env url cb w)) = false.
Proof.
  intros H. rewrite autoSync_eq. destruct (wifi_at env (tick w)).
  - apply syncPhotos_idle_resets. exact H.
  - exact H.
Qed.

Lemma loadSyncStatus_eq env w :
  HomeScreen.loadSyncStatus env w
  = (Ok tt,
     mkWorld (storage w) (isSyncing w) (4 + tick w)
             ((trace w ++ [EvGetItem OFFLINE_PHOTOS; EvGetItem LAST_SYNC;
                           EvNetwork; EvNetwork])
                ++ [EvSetSyncStatus (status_at env w)])%list).
Proof.
  unfold HomeScreen.loadSyncStatus, bind. rewrite getSyncStatus_eq.
  reflexivity.
Qed.

Lemma checkAndAutoSync_eq env url w :
  HomeScreen.checkAndAutoSync env url w
  = let w1 :=
      mkWorld (storage w) (isSyncing w) (4 + tick w)
              ((trace w ++ [EvGetItem OFFLINE_PHOTOS; EvGetItem LAST_SYNC;
                            EvNetwork; EvNetwork])
                 ++ [EvSetSyncStatus (status_at env w)])%list in
    if st_hasWiFi (status_at env w)
       && Nat.ltb 0 (unsyncedCount (status_at env w))
    then (SyncService.autoSync env url None ;;;
          HomeScreen.loadSyncStatus env) w1
    else (Ok tt, w1).
Proof.
  unfold HomeScreen.checkAndAutoSync. unfold bind at 1.
  rewrite getSyncStatus_eq. fold (status_at env w).
  unfold bind at 1. unfold HomeScreen.setSyncStatus at 1. cbv beta iota.
  cbn [storage isSyncing tick trace]. cbv zeta.
  destruct (st_hasWiFi (status_at env w)
            && Nat.ltb 0 (unsyncedCount (status_at env w))); reflexivity.
Qed.

(** X19: The timer starts the orchestrator only when the status it has just
    read reports WiFi and at least one photo to send.  Otherwise it reads
    the store and probes the network, hands the status to the screen, and
    nothing else: the store is unchanged and no request is sent to the
    server.  In every case it resolves, and a service on which no pass was
    running is left with no pass running. *)
Theorem checkAndAutoSync_gate env url w :
  fst (HomeScreen.checkAndAutoSync env url w) = Ok tt
  /\ (isSyncing w = false ->
      isSyncing (snd (HomeScreen.checkAndAutoSync env url w)) = false)
  /\ (st_hasWiFi (status_at env w) = false
      \/ unsyncedCount (status_at env w) = 0 ->
      storage (snd (HomeScreen.checkAndAutoSync env url w)) = storage w
      /\ trace (snd (HomeScreen.checkAndAutoSync env url w))
         = (trace w ++ [EvGetItem OFFLINE_PHOTOS; EvGetItem LAST_SYNC;
                        EvNetwork; EvNetwork;
                        EvSetSyncStatus (status_at env w)])%list).
Proof.
  rewrite checkAndAutoSync_eq. cbv zeta.
  destruct (st_hasWiFi (status_at env w)
            && Nat.ltb 0 (unsyncedCount (status_at env w))) eqn:E.
  - set (w1 := mkWorld _ _ _ _).
    unfold bind.
    destruct (autoSync_resolves env url None w1) as [r Hr].
    pose proof (autoSync_idle env url None w1) as Hidle.
    destruct (SyncService.autoSync env url None w1) as [r0 w2].
    cbn [fst snd] in Hr, Hidle. subst r0.
    rewrite loadSyncStatus_eq. cbn [fst snd isSyncing].
    split; [reflexivity|]. split; [exact Hidle|].
    apply andb_true_iff in E. destruct E as [E1 E2].
    apply Nat.ltb_lt in E2.
    intros [H|H]; [congruence | lia].
  - cbn [fst snd storage trace isSyncing].
    split; [reflexivity|]. split; [auto|].
    intros _. split; [reflexivity|].
    rewrite <- app_assoc. reflexivity.
Qed.

(* ------------------------------------------------------------------ *)
(** * A pass while the server cannot be reached *)

Lemma posts_of_app tr1 tr2 :
  posts_of (tr1 ++ tr2) = (posts_of tr1 ++ posts_of tr2)%list.
Proof.
  induction tr1 as [|ev tr1 IH]; [reflexivity|].
  destruct ev; simpl; rewrite IH; reflexivity.
Qed.

Lemma attempt_down env url p w error :
  api_complaints env (tick w) = Throw error ->
  attempt env url p w = (Ok false, outside (EvApiGet "/api/complaints/") w).
Proof.
  intros H. unfold attempt, try_catch at 1. unfold bind at 1.
  unfold SyncService.uploadPhoto. rewrite try_catch_rethrow.
  unfold bind at 1. rewrite precheck_eq, H. reflexivity.
Qed.

Lemma syncLoop_down env url cb n rest : forall i s f w,
  never_throws cb ->
  server_down env ->
  exists w',
    SyncService.syncLoop env url cb n i rest s f w
    = (Ok (s, f + List.length rest), w')
    /\ storage w' = storage w
    /\ posts_of (trace w') = posts_of (trace w).
Proof.
  induction rest as [|p rest IH]; intros i s f w Hcb Hdown.
  - exists w. simpl. rewrite Nat.add_0_r. repeat split.
  - rewrite syncLoop_cons by exact Hcb. cbv zeta.
    set (w0 := match cb with Some _ => _ | None => w end).
    assert (H0 : storage w0 = storage w
                 /\ posts_of (trace w0) = posts_of (trace w)).
    { subst w0. destruct cb; simpl; [|split; reflexivity].
      rewrite posts_of_app. simpl. rewrite app_nil_r. split; reflexivity. }
    destruct H0 as [Hs Hp].
    destruct (Hdown (tick w0)) as [error He].
    rewrite (attempt_down env url p w0 error He).
    destruct (IH (S i) s (S f)
                 (outside (EvApiGet "/api/complaints/") w0) Hcb Hdown)
      as (w' & Heq & Hs' & Hp').
    exists w'. rewrite Heq.
    replace (f + List.length (p :: rest)) with (S f + List.length rest)
      by (simpl; lia).
    split; [reflexivity|].
    split; [rewrite Hs'; exact Hs|].
    rewrite Hp'. simpl. rewrite posts_of_app. simpl.
    rewrite app_nil_r. exact Hp.
Qed.

Lemma pending_after_cleanup sevenDaysAgo l :
  filter (fun p => negb (synced p))
         (filter (StorageService.keepPhoto sevenDaysAgo) l)
  = filter (fun p => negb (synced p)) l.
Proof.
  induction l as [|p l IH]; [reflexivity|]. simpl.
  unfold StorageService.keepPhoto at 1.
  destruct (synced p) eqn:E; simpl.
  - destruct (syncedAt p) as [t|]; [destruct (Z.ltb sevenDaysAgo t)|];
      simpl; rewrite ?E; simpl; exact IH.
  - rewrite E. simpl. rewrite IH. reflexivity.
Qed.

(** X20: Nothing is lost while the server is down: in a pass with WiFi and a
    readable store, when the reachability request fails for every photo,
    no upload is posted, every pending photo is counted as failed and none
    as sent, and the list of pending photos after the pass is the list
    before it, in the same order. *)
Theorem syncPhotos_server_down_keeps_queue env url cb w :
  isSyncing w = false ->
  wifi_at env (tick w) = true ->
  never_throws cb ->
  (forall t, getItem_fault env t = None) ->
  server_down env ->
  let pending := filter (fun p => negb (synced p)) (photos_of w) in
  let w' := snd (SyncService.syncPhotos env url cb w) in
  filter (fun p => negb (synced p)) (photos_of w') = pending
  /\ posts_of (trace w') = posts_of (trace w)
  /\ (pending <> [] ->
      fst (SyncService.syncPhotos env url cb w)
      = Ok (mkSyncResult true
              (SyncService.synced_message 0 (List.length pending)) None
              (Some 0) (Some (List.length pending)))).
Proof.
  intros Hidle Hwifi Hcb Hr Hdown pending w'. subst w'.
  rewrite (syncPhotos_pass env url cb w Hidle Hwifi).
  assert (Hsnap : snapshot_of env w = pending)
    by (unfold snapshot_of; rewrite Hr; reflexivity).
  rewrite Hsnap.
  assert (Epending : pending
                     = filter (fun p => negb (synced p)) (photos_of w))
    by reflexivity.
  clearbody pending. clear Hsnap.
  assert (Hstart : posts_of (trace (loop_start w)) = posts_of (trace w)).
  { unfold loop_start, outside. simpl. rewrite !posts_of_app. simpl.
    rewrite !app_nil_r. reflexivity. }
  destruct pending as [|p0 l0] eqn:E0.
  { cbn [fst snd]. split; [symmetry; exact Epending|].
    split; [exact Hstart | intros H; contradiction H; reflexivity]. }
  cbv iota. rewrite <- E0. rewrite <- E0 in Epending.
  destruct (syncLoop_down env url cb (List.length pending) pending
              0 0 0 (loop_start w) Hcb Hdown)
    as (wl & Heq & Hst & Hposts).
  rewrite Heq. cbn [fst snd].
  assert (Hp : photos_of wl = photos_of w)
    by (unfold photos_of; rewrite Hst; reflexivity).
  split; [|split].
  - change (photos_of (set_isSyncing false (after_loop env wl)))
      with (photos_of (after_loop env wl)).
    rewrite photos_of_after_loop by apply Hr.
    destruct (setItem_fault env (4 + tick wl));
      [|rewrite pending_after_cleanup]; rewrite Hp; symmetry;
      exact Epending.
  - rewrite after_loop_world. cbv zeta. cbn [set_isSyncing trace].
    rewrite posts_of_app. simpl. rewrite app_nil_r, Hposts. exact Hstart.
  - intros _. reflexivity.
Qed.

Lemma syncPhotos_server_down_keeps_queue_witness :
  filter (fun p => negb (synced p))
         (photos_of (snd (SyncService.syncPhotos Sample.env_down Sample.url
                            None Sample.idle)))
  = [Sample.shot "1" "a.jpg"; Sample.shot "2" "c.jpg";
     Sample.shot "3" "b.jpg"].
Proof.
  refine (proj1 (syncPhotos_server_down_keeps_queue Sample.env_down
                   Sample.url None Sample.idle _ _ _ _ _));
    [reflexivity | reflexivity | exact I | intros t; reflexivity |].
  intros t. exists Sample.not_found. reflexivity.
Defined.
